(** * Booking-field reconciliation (cal.com, getBookingFields)

    A shallow embedding of [getBookingFieldsWithSystemFields] and
    [ensureBookingInputsHaveSystemFields]: the function that merges the
    booking fields stored for an event type with the system fields defined
    in code, migrates legacy custom inputs and validates the result.

    JavaScript objects are finite maps from property names to values, an
    absent key being a property that reads as [undefined]; arrays are
    lists; the object spread [{...a, ...b}] is the left-biased union
    [b ∪ a]. *)

From stdpp Require Import gmap strings list fin_maps pretty.

Local Open Scope string_scope.
Local Open Scope list_scope.
Local Open Scope Z_scope.

(** ** JavaScript values *)

#[warnings="-register-all"]
Inductive JsVal :=
| JUndef
| JNull
| JBool (b : bool)
| JNum (z : Z)
| JStr (s : string)
| JArr (l : list JsVal)
| JObj (o : gmap string JsVal).

Abbreviation JsObject := (gmap string JsVal).

(** An object literal [{k1: v1, ..., kn: vn}] with distinct keys. *)
Definition obj (kvs : list (string * JsVal)) : JsObject := list_to_map kvs.

(** Property read [o.k]: [undefined] when the key is absent. *)
Definition get (o : JsObject) (k : string) : JsVal := default JUndef (o !! k).

(** Object spread [{...a, ...b}]: the keys of [b] win. *)
Definition spread (a b : JsObject) : JsObject := b ∪ a.

(** ToBoolean, as used by [||], [!] and [if]. *)
Definition truthy (v : JsVal) : bool :=
  match v with
  | JUndef | JNull => false
  | JBool b => b
  | JNum z => negb (z =? 0)
  | JStr s => negb (String.eqb s "")
  | JArr _ | JObj _ => true
  end.

(** [a || b] *)
Definition js_or (a b : JsVal) : JsVal := if truthy a then a else b.

(** [a === b] on primitive values.  Arrays and objects compare by
    reference in JavaScript; the code only compares field names, one side
    being a string literal, so they are never equal to it. *)
Definition strictEq (a b : JsVal) : bool :=
  match a, b with
  | JUndef, JUndef | JNull, JNull => true
  | JBool x, JBool y => bool_decide (x = y)
  | JNum x, JNum y => bool_decide (x = y)
  | JStr x, JStr y => bool_decide (x = y)
  | _, _ => false
  end.

(** [Array.prototype.findIndex]: the first index whose element satisfies
    [p], or [-1]. *)
Fixpoint find_index {A} (p : A → bool) (l : list A) : option nat :=
  match l with
  | [] => None
  | x :: l' => if p x then Some O else S <$> find_index p l'
  end.

Definition findIndex {A} (p : A → bool) (l : list A) : Z :=
  match find_index p l with
  | Some i => Z.of_nat i
  | None => -1
  end.

(** [Array.prototype.find]: the first element satisfying [p], or
    [undefined] (here [None]). *)
Definition find {A} (p : A → bool) (l : list A) : option A := List.find p l.

(** [l.splice(start, 0, x)] for [start >= 0]: insertion before position
    [start], clamped to the length of [l]. *)
Definition splice_insert {A} (start : Z) (x : A) (l : list A) : list A :=
  take (Z.to_nat start) l ++ x :: drop (Z.to_nat start) l.

(** ** Strings *)

Definition ascii_toUpperCase (c : Ascii.ascii) : Ascii.ascii :=
  let n := Ascii.N_of_ascii c in
  if ((97 <=? n) && (n <=? 122))%N then Ascii.ascii_of_N (n - 32) else c.

Definition ascii_toLowerCase (c : Ascii.ascii) : Ascii.ascii :=
  let n := Ascii.N_of_ascii c in
  if ((65 <=? n) && (n <=? 90))%N then Ascii.ascii_of_N (n + 32) else c.

(** The double-quote character, for string constants that contain it. *)
Definition dquote : string := String (Ascii.ascii_of_N 34) EmptyString.

Fixpoint string_map (f : Ascii.ascii → Ascii.ascii) (s : string) : string :=
  match s with
  | EmptyString => EmptyString
  | String c s' => String (f c) (string_map f s')
  end.

Definition toLowerCase := string_map ascii_toLowerCase.

(** [upperCaseString[0].toUpperCase() + upperCaseString.slice(1).toLowerCase()];
    PHONE -> Phone.  Its only argument in this file is the name of a
    member of [EventTypeCustomInputType], never the empty string (on
    which the JavaScript raises). *)
Definition upperCaseToCamelCase (upperCaseString : string) : string :=
  match upperCaseString with
  | EmptyString => EmptyString
  | String c rest => String (ascii_toUpperCase c) (toLowerCase rest)
  end.

(** ** Constants of the module *)

Definition SMS_REMINDER_NUMBER_FIELD : string := "smsReminderNumber".

(** Only the key [name] is registered. [FieldTypeConfigMap[field.type]] is
    read with [field.type] a member of the [BookingFieldType] enumeration,
    none of which names an inherited property of an object literal. *)
Definition FieldTypeConfigMap : JsObject :=
  obj [("name", JObj (obj [
    ("variantsConfig", JObj (obj [
      ("toggleLabel", JStr ("Split " +:+ dquote +:+ "Full name" +:+ dquote +:+ " into "
                           +:+ dquote +:+ "First name" +:+ dquote +:+ " and "
                           +:+ dquote +:+ "Last name" +:+ dquote));
      ("variants", JObj (obj [
        ("firstAndLastName", JObj (obj [
          ("label", JStr "First Name, Last Name");
          ("fieldsMap", JObj (obj [
            ("firstName", JObj (obj [
              ("defaultLabel", JStr "first_name");
              ("canChangeRequirability", JBool false)]));
            ("lastName", JObj (obj [
              ("defaultLabel", JStr "last_name");
              ("canChangeRequirability", JBool true)]))]))]));
        ("fullName", JObj (obj [
          ("label", JStr "your_name");
          ("fieldsMap", JObj (obj [
            ("fullName", JObj (obj [
              ("defaultLabel", JStr "your_name");
              ("defaultPlaceholder", JStr "example_name");
              ("canChangeRequirability", JBool false)]))]))]))]))]))]))].

Definition getSmsReminderNumberField : JsObject :=
  obj [("name", JStr SMS_REMINDER_NUMBER_FIELD);
       ("type", JStr "phone");
       ("defaultLabel", JStr "number_sms_notifications");
       ("defaultPlaceholder", JStr "enter_phone_number");
       ("editable", JStr "system")].

Definition getSmsReminderNumberSource
    (workflowId : Z) (isSmsReminderNumberRequired : bool) : JsObject :=
  obj [("id", JStr ("" +:+ pretty workflowId));
       ("type", JStr "workflow");
       ("label", JStr "Workflow");
       ("fieldRequired", JBool isSmsReminderNumberRequired);
       ("editUrl", JStr ("/workflows/" +:+ pretty workflowId))].

Inductive EventTypeCustomInputType := TEXT | TEXTLONG | NUMBER | BOOL | RADIO | PHONE.

(** The string each member stands for ([TEXT: "TEXT"], ...). *)
Definition customInputTypeName (t : EventTypeCustomInputType) : string :=
  match t with
  | TEXT => "TEXT" | TEXTLONG => "TEXTLONG" | NUMBER => "NUMBER"
  | BOOL => "BOOL" | RADIO => "RADIO" | PHONE => "PHONE"
  end.

Definition SystemField : list string :=
  ["name"; "email"; "location"; "notes"; "guests"; "rescheduleReason";
   "smsReminderNumber"].

(** Modelled from the spec: [BookingFieldType] is declared in
    @calcom/prisma/zod-utils, which is not part of the sources at hand; by
    the spec (4.1, step 5) the six members used by the migration table are
    the field types text, textarea, number, boolean, radio and phone, each
    member being the string of its own name. *)
Module BookingFieldType.
Definition text : string := "text".
Definition textarea : string := "textarea".
Definition number : string := "number".
Definition boolean : string := "boolean".
Definition radio : string := "radio".
Definition phone : string := "phone".
End BookingFieldType.

(** ** Inputs *)

(** A step of a workflow: [action] is the Prisma enumeration
    [WorkflowActions] as its string, [numberRequired] is a nullable
    boolean. *)
Record WorkflowStep := {
  step_action : string;
  step_numberRequired : option bool
}.

Record Workflow := {
  workflow_id : Z;
  workflow_steps : list WorkflowStep
}.

(** An element of [workflows]: [{ workflow: { id, steps } }]. *)
Record WorkflowOnEventType := { workflow : Workflow }.

(** A legacy custom input, of the type inferred from [customInputSchema]:
    the properties the code reads. *)
Record CustomInput := {
  input_label : string;
  input_type : EventTypeCustomInputType;
  input_required : bool;
  input_placeholder : string;
  input_options : option (list JsObject)
}.

(** The parsed metadata: the one property the code reads. *)
Record MetaData := { additionalNotesRequired : option bool }.

(** ** Results of a call that may throw a [ZodError] *)

Inductive Schema :=
| MetaDataSchema
| BookingFieldsSchema
| CustomInputsSchema
| BrandedBookingFieldsSchema.

Inductive Result (A : Type) :=
| Ok (a : A)
| ZodError (failed : Schema).
Arguments Ok {A} a.
Arguments ZodError {A} failed.

#[global] Instance result_ret : MRet Result := λ A a, Ok a.
#[global] Instance result_bind : MBind Result := λ A B k r,
  match r with
  | Ok a => k a
  | ZodError s => ZodError s
  end.

(** [schema.parse(x)] for a schema without defaults or transformations:
    it accepts exactly the values satisfying [accepts], returns an accepted
    value as it is, and throws otherwise. *)
Definition parse {A} (schema : Schema) (accepts : A → bool) (x : A) : Result A :=
  if accepts x then Ok x else ZodError schema.

(** ** The system fields defined in code *)

Definition defaultSources : JsVal :=
  JArr [JObj (obj [("label", JStr "Default"); ("id", JStr "default");
                   ("type", JStr "default")])].

Definition systemBeforeFields : list JsObject := [
  obj [("type", JStr "name");
       ("name", JStr "name");
       ("editable", JStr "system");
       ("defaultLabel", JStr "your_name");
       ("required", JBool true);
       ("variantsConfig", JObj (obj [
          ("defaultVariant", JStr "fullName");
          ("variants", JObj (obj [
            ("firstAndLastName", JObj (obj [
              ("fields", JArr [
                JObj (obj [("name", JStr "firstName"); ("type", JStr "text");
                           ("label", JStr "First Name"); ("required", JBool true)]);
                JObj (obj [("name", JStr "lastName"); ("type", JStr "text");
                           ("label", JStr "Last Name"); ("required", JBool false)])])]));
            ("fullName", JObj (obj [
              ("fields", JArr [
                JObj (obj [("name", JStr "fullName"); ("type", JStr "text");
                           ("label", JStr "Your Name"); ("required", JBool true)])])]))]))]));
       ("sources", defaultSources)];
  obj [("defaultLabel", JStr "email_address");
       ("type", JStr "email");
       ("name", JStr "email");
       ("required", JBool true);
       ("editable", JStr "system");
       ("sources", defaultSources)];
  obj [("defaultLabel", JStr "location");
       ("type", JStr "radioInput");
       ("name", JStr "location");
       ("editable", JStr "system");
       ("hideWhenJustOneOption", JBool true);
       ("required", JBool false);
       ("getOptionsAt", JStr "locations");
       ("optionsInputs", JObj (obj [
          ("attendeeInPerson", JObj (obj [
            ("type", JStr "address"); ("required", JBool true);
            ("placeholder", JStr "")]));
          ("phone", JObj (obj [
            ("type", JStr "phone"); ("required", JBool true);
            ("placeholder", JStr "")]))]));
       ("sources", defaultSources)]
].

Definition systemAfterFields (additionalNotesRequired disableGuests : bool)
  : list JsObject := [
  obj [("defaultLabel", JStr "additional_notes");
       ("type", JStr "textarea");
       ("name", JStr "notes");
       ("editable", JStr "system-but-optional");
       ("required", JBool additionalNotesRequired);
       ("defaultPlaceholder", JStr "share_additional_notes");
       ("sources", defaultSources)];
  obj [("defaultLabel", JStr "additional_guests");
       ("type", JStr "multiemail");
       ("editable", JStr "system-but-optional");
       ("name", JStr "guests");
       ("required", JBool false);
       ("hidden", JBool disableGuests);
       ("sources", defaultSources)];
  obj [("defaultLabel", JStr "reschedule_reason");
       ("type", JStr "textarea");
       ("editable", JStr "system-but-optional");
       ("name", JStr "rescheduleReason");
       ("defaultPlaceholder", JStr "reschedule_placeholder");
       ("required", JBool false);
       ("views", JArr [JObj (obj [("id", JStr "reschedule");
                                  ("label", JStr "Reschedule View")])]);
       ("sources", defaultSources)]
].

(** ** The reconciler *)

(** [f.name === name] for a string [name]. *)
Definition hasName (name : string) (f : JsObject) : bool :=
  strictEq (get f "name") (JStr name).

(** [(f) => f.name === field.name] *)
Definition sameName (field f : JsObject) : bool :=
  strictEq (get f "name") (get field "name").

(** The body shared by the two loops [for (const field of system...Fields)]:
    a system field whose name no booking field has is pushed on the list of
    missing ones; otherwise the first booking field of that name is
    replaced by [{...field, ...bookingFields[existingBookingFieldIndex]}].
    The result is the pair of the missing fields and the booking fields.
    (In the first loop the assignment is made in the array of the caller;
    the function goes on with, and returns, arrays of its own.) *)
Fixpoint mergeSystemFields (systemFields missing bookingFields : list JsObject)
  : list JsObject * list JsObject :=
  match systemFields with
  | [] => (missing, bookingFields)
  | field :: rest =>
      let existingBookingFieldIndex := findIndex (sameName field) bookingFields in
      if existingBookingFieldIndex =? -1 then
        mergeSystemFields rest (missing ++ [field]) bookingFields
      else
        mergeSystemFields rest missing
          (alter (spread field) (Z.to_nat existingBookingFieldIndex) bookingFields)
  end.

(** The two nested [forEach] that collect one source per SMS_ATTENDEE
    step, in the order of the workflows and of their steps. *)
Definition smsNumberSources (workflows : list WorkflowOnEventType) : list JsVal :=
  w ← workflows;
  step ← workflow_steps (workflow w);
  if String.eqb (step_action step) "SMS_ATTENDEE" then
    [JObj (getSmsReminderNumberSource (workflow_id (workflow w))
             (default false (step_numberRequired step)))]
  else [].

Definition CustomInputTypeToFieldType (t : EventTypeCustomInputType) : string :=
  match t with
  | TEXT => BookingFieldType.text
  | TEXTLONG => BookingFieldType.textarea
  | NUMBER => BookingFieldType.number
  | BOOL => BookingFieldType.boolean
  | RADIO => BookingFieldType.radio
  | PHONE => BookingFieldType.phone
  end.

(** [{...o, value: o.label}] *)
Definition migrateOption (o : JsObject) : JsVal :=
  JObj (<["value" := get o "label"]> o).

(** The last step: [fieldTypeConfig] is attached to the fields whose type
    has an entry in [FieldTypeConfigMap]. *)
Definition withFieldTypeConfig (field : JsObject) : JsObject :=
  match get field "type" with
  | JStr type =>
      match FieldTypeConfigMap !! type with
      | Some fieldTypeConfig => <["fieldTypeConfig" := fieldTypeConfig]> field
      | None => field
      end
  | _ => field
  end.

Section Reconciler.

(** [slugify] of @calcom/lib/slugify and the schema [eventTypeBookingFields]
    of @calcom/prisma/zod-utils are imported from files that are not part
    of the sources at hand: they are parameters.  The schema is the set of
    field lists it accepts; [parse] returns an accepted list as it is. *)
Variable slugify : string → string.
Variable eventTypeBookingFields : list JsObject → bool.

(** [EventTypeMetaDataSchema.parse] and [customInputSchema.array().parse],
    of the same absent file, as functions from the raw value to the parsed
    one ([None] for a parsed [null] metadata) or to the error. *)
Variable EventTypeMetaDataSchema_parse : JsVal → Result (option MetaData).
Variable customInputSchema_array_parse : JsVal → Result (list CustomInput).

(** The field pushed for the custom input at position [index]. *)
Definition migrateCustomInput (index : nat) (input : CustomInput) : JsObject :=
  let label :=
    if String.eqb (input_label input) "" then
      upperCaseToCamelCase (customInputTypeName (input_type input))
    else input_label input in
  obj [("label", JStr label);
       ("editable", JStr "user");
       ("name", JStr (slugify
          (if String.eqb (input_label input) "" then
             customInputTypeName (input_type input) +:+ "-" +:+ pretty (Z.of_nat index + 1)
           else input_label input)));
       ("placeholder", JStr (input_placeholder input));
       ("type", JStr (CustomInputTypeToFieldType (input_type input)));
       ("required", JBool (input_required input));
       ("options", JArr (match input_options input with
                         | Some options => migrateOption <$> options
                         | None => []
                         end))].

(** The field list just before the final [parse]. *)
Definition reconciledFields
    (bookingFields : list JsObject) (disableGuests additionalNotesRequired : bool)
    (customInputs : list CustomInput) (workflows : list WorkflowOnEventType)
  : list JsObject :=
  let handleMigration := bool_decide (length bookingFields = 0%nat) in
  let smsNumberSources := smsNumberSources workflows in
  let '(missingSystemBeforeFields, bookingFields) :=
    mergeSystemFields systemBeforeFields [] bookingFields in
  let bookingFields := missingSystemBeforeFields ++ bookingFields in
  let bookingFields :=
    if negb (bool_decide (length smsNumberSources = 0%nat))
       && negb (bool_decide (is_Some
            (find (λ f, negb (hasName SMS_REMINDER_NUMBER_FIELD f)) bookingFields)))
    then
      let indexForLocation := findIndex (hasName "location") bookingFields in
      splice_insert (indexForLocation + 1)
        (<["sources" := JArr smsNumberSources]> getSmsReminderNumberField)
        bookingFields
    else bookingFields in
  let bookingFields :=
    if handleMigration then bookingFields ++ imap migrateCustomInput customInputs
    else bookingFields in
  let '(missingSystemAfterFields, bookingFields) :=
    mergeSystemFields (systemAfterFields additionalNotesRequired disableGuests) []
      bookingFields in
  withFieldTypeConfig <$> (bookingFields ++ missingSystemAfterFields).

Definition ensureBookingInputsHaveSystemFields
    (bookingFields : list JsObject) (disableGuests additionalNotesRequired : bool)
    (customInputs : list CustomInput) (workflows : list WorkflowOnEventType)
  : Result (list JsObject) :=
  parse BrandedBookingFieldsSchema eventTypeBookingFields
    (reconciledFields bookingFields disableGuests additionalNotesRequired
       customInputs workflows).

(** The object, or the list of objects, that a raw value is. *)
Definition asObject (v : JsVal) : option JsObject :=
  match v with
  | JObj o => Some o
  | _ => None
  end.

Definition asObjects (v : JsVal) : option (list JsObject) :=
  match v with
  | JArr l => mapM asObject l
  | _ => None
  end.

(** [eventTypeBookingFields.parse] on a raw value: an array of objects
    that the schema accepts. *)
Definition eventTypeBookingFields_parse (raw : JsVal) : Result (list JsObject) :=
  match asObjects raw with
  | Some fields => parse BookingFieldsSchema eventTypeBookingFields fields
  | None => ZodError BookingFieldsSchema
  end.

(** The arguments that may be [null] or [undefined] at run time are raw
    values; [workflows] is [None] when absent. *)
Definition getBookingFieldsWithSystemFields
    (bookingFields : JsVal) (disableGuests : bool) (customInputs metadata : JsVal)
    (workflows : option (list WorkflowOnEventType))
  : Result (list JsObject) :=
  parsedMetaData ← EventTypeMetaDataSchema_parse (js_or metadata (JObj ∅));
  parsedBookingFields ← eventTypeBookingFields_parse (js_or bookingFields (JArr []));
  parsedCustomInputs ← customInputSchema_array_parse (js_or customInputs (JArr []));
  let workflows := default [] workflows in
  ensureBookingInputsHaveSystemFields parsedBookingFields disableGuests
    (default false (parsedMetaData ≫= additionalNotesRequired))
    parsedCustomInputs workflows.

End Reconciler.

(** * Models of the absent collaborators *)

Definition isSlugChar (c : Ascii.ascii) : bool :=
  let n := Ascii.N_of_ascii c in
  (((48 <=? n) && (n <=? 57)) || ((97 <=? n) && (n <=? 122)))%N.

Fixpoint slugify_go (started pending : bool) (s : string) : string :=
  match s with
  | EmptyString => EmptyString
  | String c s' =>
      let c := ascii_toLowerCase c in
      if isSlugChar c then
        let rest := String c (slugify_go true false s') in
        if started && pending then "-" +:+ rest else rest
      else slugify_go started true s'
  end.

(** Modelled from the spec: [slugify] (@calcom/lib/slugify) is not part of
    the sources at hand.  The spec calls it the slug generator that
    converts free-text labels to URL-safe field names, and gives the slugs
    company of the label Company and number-2 of NUMBER-2: lower case, the
    letters and digits kept, every other run of characters turned into one
    dash, none at either end. *)
Definition slugify_model (s : string) : string := slugify_go false false s.

Definition stringName (f : JsObject) : option string :=
  match f !! "name" with
  | Some (JStr n) => Some n
  | _ => None
  end.

Definition fieldSchema_model (f : JsObject) : bool :=
  match f !! "name", f !! "type" with
  | Some (JStr n), Some (JStr _) => negb (String.eqb n "")
  | _, _ => false
  end.

(** Modelled from the spec: the schema [eventTypeBookingFields]
    (@calcom/prisma/zod-utils) is not part of the sources at hand.  By the
    spec (3 and 4.1, step 8) validation fails on a wrong type, a missing
    required key or a duplicate name: every field has a name and a type,
    and no two fields have the same name. *)
Definition eventTypeBookingFields_model (fields : list JsObject) : bool :=
  forallb fieldSchema_model fields && bool_decide (NoDup (omap stringName fields)).

(** Modelled from the spec: [EventTypeMetaDataSchema] is not part of the
    sources at hand; of the metadata the reconciler reads whether
    additional notes are required, an optional boolean. *)
Definition EventTypeMetaDataSchema_parse_model (raw : JsVal) : Result (option MetaData) :=
  match raw with
  | JNull => Ok None
  | JObj o =>
      match o !! "additionalNotesRequired" with
      | None => Ok (Some {| additionalNotesRequired := None |})
      | Some (JBool b) => Ok (Some {| additionalNotesRequired := Some b |})
      | Some _ => ZodError MetaDataSchema
      end
  | _ => ZodError MetaDataSchema
  end.

Definition customInputType_model (v : JsVal) : option EventTypeCustomInputType :=
  match v with
  | JStr s =>
      List.find (λ t, String.eqb (customInputTypeName t) s)
        [TEXT; TEXTLONG; NUMBER; BOOL; RADIO; PHONE]
  | _ => None
  end.

Definition customInput_model (v : JsVal) : option CustomInput :=
  match v with
  | JObj o =>
      match o !! "label", customInputType_model (get o "type"),
            o !! "required", o !! "placeholder" with
      | Some (JStr label), Some type, Some (JBool required), Some (JStr placeholder) =>
          match o !! "options" with
          | None | Some JNull =>
              Some {| input_label := label; input_type := type;
                      input_required := required; input_placeholder := placeholder;
                      input_options := None |}
          | Some options =>
              options ← asObjects options;
              Some {| input_label := label; input_type := type;
                      input_required := required; input_placeholder := placeholder;
                      input_options := Some options |}
          end
      | _, _, _, _ => None
      end
  | _ => None
  end.

(** Modelled from the spec: [customInputSchema] is not part of the sources
    at hand; by the spec (3) a legacy custom input has a label, a type of a
    small fixed enumeration, a required flag, a placeholder and optional
    options. *)
Definition customInputSchema_array_parse_model (raw : JsVal)
  : Result (list CustomInput) :=
  match raw with
  | JArr l =>
      match mapM customInput_model l with
      | Some inputs => Ok inputs
      | None => ZodError CustomInputsSchema
      end
  | _ => ZodError CustomInputsSchema
  end.

(** * Vocabulary of the statements *)

Definition fieldName (f : JsObject) : JsVal := get f "name".

Definition names (l : list JsObject) : list JsVal := fieldName <$> l.

(** The number of fields named [name]. *)
Definition countName (name : string) (l : list JsObject) : nat :=
  length (List.filter (hasName name) l).

(** The system fields that no booking field is named after. *)
Definition absentFields (systemFields bookingFields : list JsObject) : list JsObject :=
  List.filter (λ d, bool_decide (find_index (sameName d) bookingFields = None))
    systemFields.

(** The system field, if any, whose first namesake is at index [i]. *)
Definition defaultAt (systemFields bookingFields : list JsObject) (i : nat)
  : option JsObject :=
  List.find (λ d, bool_decide (find_index (sameName d) bookingFields = Some i))
    systemFields.

Definition mergedAt (systemFields bookingFields : list JsObject) (i : nat)
    (existing : JsObject) : JsObject :=
  match defaultAt systemFields bookingFields i with
  | Some d => spread d existing
  | None => existing
  end.

(** System fields have string names, pairwise distinct. *)
Definition stringNamed (d : JsObject) : Prop := ∃ s, d !! "name" = Some (JStr s).

Definition wellNamed (systemFields : list JsObject) : Prop :=
  Forall stringNamed systemFields ∧ NoDup (names systemFields).

(** [keeps e e']: [e'] has the name of [e] and every property of [e], with
    its value, except possibly [fieldTypeConfig]. *)
Definition keeps (e e' : JsObject) : Prop :=
  fieldName e' = fieldName e ∧
  ∀ k v, k ≠ "fieldTypeConfig" → e !! k = Some v → e' !! k = Some v.

Definition beforeNames : list string := ["name"; "email"; "location"].
Definition afterNames : list string := ["notes"; "guests"; "rescheduleReason"].

(** Some workflow has a step whose action is SMS_ATTENDEE. *)
Definition contributesSmsStep (workflows : list WorkflowOnEventType) : Prop :=
  ∃ w step, w ∈ workflows ∧ step ∈ workflow_steps (workflow w)
            ∧ step_action step = "SMS_ATTENDEE".

(** The after-field guests of [systemAfterFields]. *)
Definition guestsDefault (disableGuests : bool) : JsObject :=
  obj [("defaultLabel", JStr "additional_guests");
       ("type", JStr "multiemail");
       ("editable", JStr "system-but-optional");
       ("name", JStr "guests");
       ("required", JBool false);
       ("hidden", JBool disableGuests);
       ("sources", defaultSources)].

(** [f] is named after a system field. *)
Definition hasName_system (f : JsObject) : Prop :=
  ∃ s, s ∈ SystemField ∧ hasName s f = true.

(** A list on which a merge loop changes nothing: every system field has a
    namesake, the first of which already has all its properties. *)
Definition settled (sys l : list JsObject) : Prop :=
  ∀ d, d ∈ sys →
    ∃ i e, find_index (sameName d) l = Some i ∧ l !! i = Some e ∧ dom d ⊆ dom e.

(** The string that is slugified into the name of the migrated field:
    [input.label || `${input.type}-${index + 1}`]. *)
Definition migratedNameSource (index : nat) (input : CustomInput) : string :=
  if String.eqb (input_label input) "" then
    customInputTypeName (input_type input) +:+ "-" +:+ pretty (Z.of_nat index + 1)
  else input_label input.

(** The value used for an argument that is [null] or [undefined]. *)
Definition orIfAbsent (v d : JsVal) : JsVal :=
  match v with
  | JNull | JUndef => d
  | _ => v
  end.

Definition isAbsent (v : JsVal) : Prop := v = JNull ∨ v = JUndef.

Section Vocabulary.

Variable slugify : string → string.

(** The fields pushed by the migration of the custom inputs, which runs
    only for an empty incoming list. *)
Definition migratedFields (bookingFields : list JsObject)
    (customInputs : list CustomInput) : list JsObject :=
  if bool_decide (length bookingFields = 0%nat)
  then imap (migrateCustomInput slugify) customInputs else [].

(** The list after the first loop and the [concat] that follows it. *)
Definition afterBeforeFields (bookingFields : list JsObject) : list JsObject :=
  absentFields systemBeforeFields bookingFields
  ++ imap (mergedAt systemBeforeFields bookingFields) bookingFields.

(** The list the second loop runs on. *)
Definition beforeAfterFields (bookingFields : list JsObject)
    (customInputs : list CustomInput) : list JsObject :=
  afterBeforeFields bookingFields ++ migratedFields bookingFields customInputs.

(** The after-fields that are queued by the second loop. *)
Definition absentAfterFields (bookingFields : list JsObject)
    (additionalNotesRequired disableGuests : bool) (customInputs : list CustomInput)
  : list JsObject :=
  absentFields (systemAfterFields additionalNotesRequired disableGuests)
    (beforeAfterFields bookingFields customInputs).

(** Position by position, the fields the output is made from. *)
Definition sourceFields (bookingFields : list JsObject)
    (disableGuests additionalNotesRequired : bool) (customInputs : list CustomInput)
  : list JsObject :=
  absentFields systemBeforeFields bookingFields
  ++ bookingFields
  ++ migratedFields bookingFields customInputs
  ++ absentAfterFields bookingFields additionalNotesRequired disableGuests customInputs.

End Vocabulary.

(** ** Sample inputs *)

(** The input of the fourth testable property of the spec: one user field,
    one workflow (id 7) with one SMS_ATTENDEE step that requires the
    number. *)
Definition sms_bookingFields : list JsObject :=
  [obj [("name", JStr "company"); ("type", JStr "text"); ("editable", JStr "user")]].

Definition sms_workflows : list WorkflowOnEventType :=
  [{| workflow := {| workflow_id := 7;
                     workflow_steps := [{| step_action := "SMS_ATTENDEE";
                                           step_numberRequired := Some true |}] |} |}].

(** A stored list that already has the SMS field, with no workflow left. *)
Definition stored_sms_bookingFields : list JsObject :=
  [obj [("name", JStr SMS_REMINDER_NUMBER_FIELD); ("type", JStr "phone");
        ("editable", JStr "system")]].

Definition companyInput : CustomInput :=
  {| input_label := "Company"; input_type := TEXT; input_required := true;
     input_placeholder := ""; input_options := None |}.

Definition numberInput : CustomInput :=
  {| input_label := ""; input_type := NUMBER; input_required := false;
     input_placeholder := ""; input_options := None |}.

Definition two_customInputs : list CustomInput := [companyInput; numberInput].

(** A stored list in which the user has made the guests field visible. *)
Definition visible_guests_bookingFields : list JsObject :=
  [obj [("name", JStr "guests"); ("type", JStr "multiemail");
        ("editable", JStr "system-but-optional"); ("hidden", JBool false)]].

(** A stored list in which the user has made the email optional. *)
Definition optional_email : JsObject :=
  obj [("name", JStr "email"); ("type", JStr "email"); ("required", JBool false);
       ("label", JStr "Work email")].

Definition optional_email_bookingFields : list JsObject :=
  [obj [("name", JStr "company"); ("type", JStr "text")]; optional_email].

(** ** Vocabulary of the further properties *)

(** The steps of a workflow that make it contribute an SMS source. *)
Definition smsSteps (w : WorkflowOnEventType) : list WorkflowStep :=
  List.filter (λ step, String.eqb (step_action step) "SMS_ATTENDEE")
    (workflow_steps (workflow w)).

(** The entry of [FieldTypeConfigMap] for the type [name]. *)
Definition nameFieldTypeConfig : option JsVal := FieldTypeConfigMap !! "name".

(** [f] and [f'] have the same name and the same properties, except
    possibly [required] on a field named notes and [hidden] on a field
    named guests. *)
Definition agreeUpToFlags (f f' : JsObject) : Prop :=
  fieldName f = fieldName f' ∧
  ∀ k, ¬ (k = "required" ∧ hasName "notes" f = true) →
       ¬ (k = "hidden" ∧ hasName "guests" f = true) →
       f !! k = f' !! k.

(** The names of the fields migrated from the custom inputs. *)
Definition migratedNames (slugify : string → string)
    (customInputs : list CustomInput) : list string :=
  imap (λ index input, slugify (migratedNameSource index input)) customInputs.

(** A stored list with a user field, and a name field whose stored
    [fieldTypeConfig] is stale. *)
Definition stale_name : JsObject :=
  obj [("name", JStr "name"); ("type", JStr "name");
       ("fieldTypeConfig", JStr "stale")].

Definition user_field : JsObject :=
  obj [("name", JStr "company"); ("type", JStr "text"); ("label", JStr "Company")].

Definition stale_bookingFields : list JsObject := [user_field; stale_name].

Definition optionsInput : CustomInput :=
  {| input_label := "Size"; input_type := RADIO; input_required := true;
     input_placeholder := "pick one";
     input_options := Some [obj [("label", JStr " Large "); ("type", JStr "radio")]] |}.

(** * Properties *)

(** ** Names of fields *)

Lemma strictEq_JStr v s : strictEq v (JStr s) = true ↔ v = JStr s.
Proof.
  destruct v; simpl; try (split; [discriminate | congruence]).
  rewrite bool_decide_eq_true. split; congruence.
Qed.

Lemma hasName_lookup s f : hasName s f = true ↔ f !! "name" = Some (JStr s).
Proof.
  unfold hasName, get. rewrite strictEq_JStr.
  destruct (f !! "name") as [v|]; simpl; split; congruence.
Qed.

Lemma hasName_fieldName s f : hasName s f = true ↔ fieldName f = JStr s.
Proof. unfold hasName, fieldName. apply strictEq_JStr. Qed.

Lemma hasName_inj s t f : hasName s f = true → hasName t f = true → s = t.
Proof. rewrite !hasName_fieldName. congruence. Qed.

Lemma sameName_hasName d s f :
  d !! "name" = Some (JStr s) → sameName d f = hasName s f.
Proof. intros Hd. unfold sameName, hasName, get at 2. by rewrite Hd. Qed.

Lemma hasName_ext s f g : fieldName f = fieldName g → hasName s f = hasName s g.
Proof. unfold hasName, fieldName. by intros ->. Qed.

(** ** [findIndex] *)

Section FindIndex.
Context {A : Type}.
Implicit Types (p : A → bool) (l : list A).

Lemma find_index_Some p l i :
  find_index p l = Some i ↔
  (∃ x, l !! i = Some x ∧ p x = true) ∧
  (∀ j y, (j < i)%nat → l !! j = Some y → p y = false).
Proof.
  revert i. induction l as [|x l IH]; intros i; simpl.
  - split; [discriminate | intros [(y & Hy & _) _]; discriminate].
  - destruct (p x) eqn:Hpx.
    + split.
      * intros [= <-]. split; [eauto | intros; lia].
      * intros [_ Hlt]. destruct i as [|i]; [done|].
        specialize (Hlt O x). rewrite Hpx in Hlt. discriminate Hlt; [lia | done].
    + destruct i as [|i].
      * split.
        -- destruct (find_index p l); discriminate.
        -- intros [(y & [= <-] & Hy) _]. congruence.
      * specialize (IH i). split.
        -- intros Hf.
           assert (find_index p l = Some i) as Hk.
           { destruct (find_index p l); simpl in Hf; congruence. }
           apply IH in Hk as [Hex Hlt]. split; [done|].
           intros [|j] y Hj Hy; simpl in Hy; [congruence|].
           apply (Hlt j); [lia | done].
        -- intros [Hex Hlt].
           assert (find_index p l = Some i) as ->; [|done].
           apply IH. split; [done|].
           intros j y Hj Hy. apply (Hlt (S j)); [lia | done].
Qed.

Lemma find_index_None p l :
  find_index p l = None ↔ ∀ x, x ∈ l → p x = false.
Proof.
  induction l as [|x l IH]; simpl.
  - split; [intros _ y Hy; inversion Hy | done].
  - destruct (p x) eqn:Hpx.
    + split; [discriminate|]. intros H. rewrite H in Hpx; [discriminate | left].
    + rewrite fmap_None, IH. split.
      * intros H y Hy. apply elem_of_cons in Hy as [->|Hy]; auto.
      * intros H y Hy. apply H. by right.
Qed.

Lemma find_index_lt p l i : find_index p l = Some i → (i < length l)%nat.
Proof.
  intros [(x & Hx & _) _]%find_index_Some. by eapply lookup_lt_Some.
Qed.

Lemma find_index_app_l p l l' i :
  find_index p l = Some i → find_index p (l ++ l') = Some i.
Proof.
  revert i. induction l as [|x l IH]; intros i; simpl; [discriminate|].
  destruct (p x); [done|].
  destruct (find_index p l) as [k|]; [|discriminate].
  intros [= <-]. by rewrite (IH k).
Qed.

Lemma find_index_app_r p l l' :
  find_index p l = None →
  find_index p (l ++ l') = (λ i, (length l + i)%nat) <$> find_index p l'.
Proof.
  induction l as [|x l IH]; simpl.
  - intros _. by destruct (find_index p l').
  - destruct (p x); [discriminate|].
    destruct (find_index p l) eqn:Hl; [discriminate|]. intros _.
    rewrite IH by done. by destruct (find_index p l').
Qed.

Lemma find_index_fmap {B} (g : B → A) p (l : list B) :
  find_index p (g <$> l) = find_index (p ∘ g) l.
Proof. induction l as [|x l IH]; csimpl; [done|]. by rewrite IH. Qed.

Lemma find_index_ext p q l :
  (∀ x, x ∈ l → p x = q x) → find_index p l = find_index q l.
Proof.
  induction l as [|x l IH]; intros H; simpl; [done|].
  rewrite (H x) by left. rewrite IH; [done|]. intros y Hy. apply H. by right.
Qed.

Lemma findIndex_eq_m1 p l : (findIndex p l =? -1) = bool_decide (find_index p l = None).
Proof.
  unfold findIndex. destruct (find_index p l) as [i|]; simpl.
  - rewrite ?bool_decide_eq_false_2 by done. apply Z.eqb_neq. lia.
  - done.
Qed.

Lemma findIndex_to_nat p l i : find_index p l = Some i → Z.to_nat (findIndex p l) = i.
Proof. unfold findIndex. intros ->. lia. Qed.

End FindIndex.

(** ** The merge loop *)

Lemma fieldName_lookup d s : d !! "name" = Some (JStr s) → fieldName d = JStr s.
Proof. unfold fieldName, get. by intros ->. Qed.

Lemma sameName_names d l :
  find_index (sameName d) l = find_index (λ v, strictEq v (fieldName d)) (names l).
Proof. unfold names. by rewrite find_index_fmap. Qed.

Lemma find_index_names d l l' :
  names l = names l' → find_index (sameName d) l = find_index (sameName d) l'.
Proof. intros H. by rewrite !sameName_names, H. Qed.

Lemma absentFields_names sys l l' :
  names l = names l' → absentFields sys l = absentFields sys l'.
Proof.
  intros H. unfold absentFields. induction sys as [|d sys IH]; simpl; [done|].
  by rewrite (find_index_names d l l' H), IH.
Qed.

Lemma defaultAt_names sys l l' i :
  names l = names l' → defaultAt sys l i = defaultAt sys l' i.
Proof.
  intros H. unfold defaultAt. induction sys as [|d sys IH]; simpl; [done|].
  by rewrite (find_index_names d l l' H), IH.
Qed.

Lemma spread_fieldName d e :
  stringNamed d → sameName d e = true → fieldName (spread d e) = fieldName e.
Proof.
  intros [s Hs] Hsame. rewrite (sameName_hasName d s) in Hsame by done.
  apply hasName_lookup in Hsame. unfold fieldName, get, spread.
  by rewrite (lookup_union_Some_l _ _ _ _ Hsame), Hsame.
Qed.

Lemma names_alter g i (l : list JsObject) :
  (∀ e, l !! i = Some e → fieldName (g e) = fieldName e) →
  names (alter g i l) = names l.
Proof.
  intros H. unfold names. apply list_eq. intros j.
  rewrite !list_lookup_fmap. destruct (decide (i = j)) as [<-|Hne].
  - rewrite list_lookup_alter_eq. destruct (l !! i) as [e|] eqn:He; simpl; [|done].
    by rewrite H.
  - by rewrite list_lookup_alter_ne.
Qed.

Lemma defaultAt_Some sys l i d :
  defaultAt sys l i = Some d → d ∈ sys ∧ find_index (sameName d) l = Some i.
Proof.
  unfold defaultAt. intros H. apply List.find_some in H as [Hin Hd].
  apply bool_decide_eq_true in Hd. split; [by apply list_elem_of_In | done].
Qed.

(** Two system fields of a well-named list do not share their first
    namesake. *)
Lemma defaultAt_other d sys l i :
  wellNamed (d :: sys) → find_index (sameName d) l = Some i →
  defaultAt sys l i = None.
Proof.
  intros [Hnamed Hnodup] Hd.
  destruct (defaultAt sys l i) as [d'|] eqn:Hd'; [exfalso | done].
  apply defaultAt_Some in Hd' as [Hin Hd'].
  apply find_index_Some in Hd as [(x & Hx & Hpx) _].
  apply find_index_Some in Hd' as [(x' & Hx' & Hpx') _].
  assert (x' = x) as -> by congruence.
  apply Forall_cons in Hnamed as [[s Hs] Hnamed].
  rewrite Forall_forall in Hnamed. destruct (Hnamed d' Hin) as [s' Hs'].
  rewrite (sameName_hasName _ _ _ Hs) in Hpx.
  rewrite (sameName_hasName _ _ _ Hs') in Hpx'.
  assert (s = s') as <- by (by eapply hasName_inj).
  unfold names in Hnodup. rewrite fmap_cons in Hnodup.
  apply NoDup_cons in Hnodup as [Hnotin _]. apply Hnotin.
  rewrite (fieldName_lookup _ _ Hs), <- (fieldName_lookup _ _ Hs').
  by apply list_elem_of_fmap_2.
Qed.

Lemma wellNamed_tail d sys : wellNamed (d :: sys) → wellNamed sys.
Proof.
  intros [Hnamed Hnodup]. split.
  - by apply Forall_cons in Hnamed as [_ ?].
  - unfold names in Hnodup. rewrite fmap_cons in Hnodup.
    by apply NoDup_cons in Hnodup as [_ ?].
Qed.

(** What the loop computes: the absent system fields are queued in order,
    and each booking field that is the first namesake of a system field
    is spread over it; the others are left as they are. *)
Lemma mergeSystemFields_spec sys missing bookingFields :
  wellNamed sys →
  mergeSystemFields sys missing bookingFields =
    (missing ++ absentFields sys bookingFields,
     imap (mergedAt sys bookingFields) bookingFields).
Proof.
  revert missing bookingFields.
  induction sys as [|d sys IH]; intros missing bf Hwell; simpl.
  - rewrite app_nil_r. f_equal. unfold mergedAt; simpl.
    change (λ (_ : nat) (e : JsObject), e) with (const (B:=nat) (@id JsObject)).
    by rewrite imap_const, list_fmap_id.
  - rewrite findIndex_eq_m1. unfold absentFields; simpl.
    destruct (find_index (sameName d) bf) as [i0|] eqn:Hfind; simpl.
    + rewrite (findIndex_to_nat _ _ _ Hfind).
      rewrite IH by (by eapply wellNamed_tail).
      assert (names (alter (spread d) i0 bf) = names bf) as Hnames.
      { apply names_alter. intros e He. apply spread_fieldName.
        - destruct Hwell as [Hnamed _]. by apply Forall_cons in Hnamed as [? _].
        - apply find_index_Some in Hfind as [(x & Hx & Hpx) _]. congruence. }
      rewrite (absentFields_names _ _ _ Hnames). f_equal.
      apply list_eq. intros i. rewrite !list_lookup_imap.
      unfold mergedAt. rewrite (defaultAt_names _ _ _ _ Hnames).
      unfold defaultAt at 2; simpl. rewrite Hfind.
      destruct (decide (i0 = i)) as [<-|Hne].
      * rewrite list_lookup_alter_eq, bool_decide_eq_true_2 by done.
        rewrite (defaultAt_other d sys bf i0 Hwell Hfind).
        by destruct (bf !! i0).
      * rewrite list_lookup_alter_ne by done.
        rewrite bool_decide_eq_false_2 by congruence. done.
    + rewrite IH by (by eapply wellNamed_tail).
      rewrite <- app_assoc. simpl. f_equal.
      apply imap_ext. intros i e _. unfold mergedAt, defaultAt; simpl.
      by rewrite Hfind.
Qed.

Lemma names_systemBeforeFields :
  names systemBeforeFields = [JStr "name"; JStr "email"; JStr "location"].
Proof. reflexivity. Qed.

Lemma names_systemAfterFields anr dg :
  names (systemAfterFields anr dg) =
    [JStr "notes"; JStr "guests"; JStr "rescheduleReason"].
Proof. reflexivity. Qed.

Ltac distinct_names :=
  repeat (apply NoDup_cons; split;
          [rewrite ?elem_of_cons, elem_of_nil; intros H; intuition discriminate|]);
  apply NoDup_nil_2.

Lemma wellNamed_systemBeforeFields : wellNamed systemBeforeFields.
Proof.
  split.
  - repeat (apply Forall_cons; split; [eexists; reflexivity|]). apply Forall_nil_2.
  - rewrite names_systemBeforeFields. distinct_names.
Qed.

Lemma wellNamed_systemAfterFields anr dg : wellNamed (systemAfterFields anr dg).
Proof.
  split.
  - repeat (apply Forall_cons; split; [eexists; reflexivity|]). apply Forall_nil_2.
  - rewrite names_systemAfterFields. distinct_names.
Qed.

(** ** What a field keeps on its way to the output *)

Lemma keeps_refl e : keeps e e.
Proof. by split. Qed.

Lemma keeps_trans e1 e2 e3 : keeps e1 e2 → keeps e2 e3 → keeps e1 e3.
Proof. intros [Hn1 H1] [Hn2 H2]. split; [congruence | eauto]. Qed.

Lemma keeps_withFieldTypeConfig e : keeps e (withFieldTypeConfig e).
Proof.
  unfold withFieldTypeConfig.
  destruct (get e "type"); try apply keeps_refl.
  destruct (FieldTypeConfigMap !! s); try apply keeps_refl.
  split.
  - unfold fieldName, get. by rewrite lookup_insert_ne.
  - intros k v Hk Hv. by rewrite lookup_insert_ne.
Qed.

Lemma keeps_spread d e :
  stringNamed d → sameName d e = true → keeps e (spread d e).
Proof.
  intros Hd Hsame. split; [by apply spread_fieldName|].
  intros k v _ Hv. by apply lookup_union_Some_l.
Qed.

Lemma wellNamed_elem sys d : wellNamed sys → d ∈ sys → stringNamed d.
Proof. intros [Hnamed _] Hin. rewrite Forall_forall in Hnamed. auto. Qed.

Lemma keeps_mergedAt sys l i e :
  wellNamed sys → l !! i = Some e → keeps e (mergedAt sys l i e).
Proof.
  intros Hwell He. unfold mergedAt.
  destruct (defaultAt sys l i) as [d|] eqn:Hd; [|apply keeps_refl].
  apply defaultAt_Some in Hd as [Hin Hfind].
  apply keeps_spread; [by eapply wellNamed_elem|].
  apply find_index_Some in Hfind as [(x & Hx & Hpx) _]. congruence.
Qed.

Lemma Forall2_keeps_merged sys l :
  wellNamed sys → Forall2 keeps l (imap (mergedAt sys l) l).
Proof.
  intros Hwell. apply Forall2_same_length_lookup. split.
  - by rewrite length_imap.
  - intros i e e' He He'. rewrite list_lookup_imap, He in He'.
    injection He' as <-. by apply keeps_mergedAt.
Qed.

Lemma Forall2_keeps_withFieldTypeConfig l :
  Forall2 keeps l (withFieldTypeConfig <$> l).
Proof.
  apply Forall2_fmap_r, Forall_Forall2_diag, Forall_forall.
  intros e _. apply keeps_withFieldTypeConfig.
Qed.

Lemma Forall2_keeps_refl l : Forall2 keeps l l.
Proof. apply Forall_Forall2_diag, Forall_forall. intros e _. apply keeps_refl. Qed.

Lemma Forall2_keeps_trans l1 l2 l3 :
  Forall2 keeps l1 l2 → Forall2 keeps l2 l3 → Forall2 keeps l1 l3.
Proof. apply Forall2_trans, keeps_trans. Qed.

Lemma Forall2_keeps_names l l' : Forall2 keeps l l' → names l' = names l.
Proof.
  induction 1 as [|e e' l l' [Hn _] _ IH]; [done|].
  unfold names in *. rewrite !fmap_cons. by f_equal.
Qed.

Lemma names_merged sys l : wellNamed sys → names (imap (mergedAt sys l) l) = names l.
Proof. intros Hwell. by apply Forall2_keeps_names, Forall2_keeps_merged. Qed.

Lemma names_app l l' : names (l ++ l') = names l ++ names l'.
Proof. unfold names. apply fmap_app. Qed.

(** ** The shape of the reconciled list *)

Section Shape.

Variable slugify : string → string.

Lemma absentFields_elem sys l d :
  d ∈ absentFields sys l ↔ d ∈ sys ∧ find_index (sameName d) l = None.
Proof.
  unfold absentFields. rewrite list_elem_of_In, List.filter_In, <- list_elem_of_In.
  by rewrite bool_decide_eq_true.
Qed.

(** After the first loop some field is named [name]. *)
Lemma afterBeforeFields_has_name bookingFields :
  ∃ f, f ∈ afterBeforeFields bookingFields ∧ hasName "name" f = true.
Proof.
  unfold afterBeforeFields.
  destruct (find_index (hasName "name") bookingFields) as [i|] eqn:Hfind.
  - apply find_index_Some in Hfind as [(x & Hx & Hpx) _].
    exists (mergedAt systemBeforeFields bookingFields i x). split.
    + apply elem_of_app. right. apply list_elem_of_lookup. exists i.
      by rewrite list_lookup_imap, Hx.
    + etrans; [|exact Hpx]. apply hasName_ext.
      by apply keeps_mergedAt; [apply wellNamed_systemBeforeFields|].
  - destruct systemBeforeFields as [|d0 sys] eqn:Hsys; [discriminate|].
    exists d0. injection Hsys as Hd0 _. split.
    + apply elem_of_app. left. apply absentFields_elem. split; [left|].
      rewrite <- Hfind. apply find_index_ext. intros x _.
      apply sameName_hasName. by rewrite <- Hd0.
    + by rewrite <- Hd0.
Qed.

(** The guard of the insertion of the SMS field never holds: the list
    always has a field whose name is not [smsReminderNumber]. *)
Lemma sms_guard_false bookingFields :
  is_Some (find (λ f, negb (hasName SMS_REMINDER_NUMBER_FIELD f))
             (afterBeforeFields bookingFields)).
Proof.
  destruct (afterBeforeFields_has_name bookingFields) as (f & Hin & Hname).
  destruct (find _ _) as [x|] eqn:Hfind; [by eexists | exfalso].
  unfold find in Hfind.
  apply list_elem_of_In in Hin.
  pose proof (List.find_none _ _ Hfind f Hin) as Hf.
  apply negb_false_iff in Hf.
  by pose proof (hasName_inj _ _ _ Hname Hf).
Qed.

Lemma reconciledFields_eq bookingFields disableGuests additionalNotesRequired
    customInputs workflows :
  let pre := beforeAfterFields slugify bookingFields customInputs in
  let sys := systemAfterFields additionalNotesRequired disableGuests in
  reconciledFields slugify bookingFields disableGuests additionalNotesRequired
    customInputs workflows
  = withFieldTypeConfig <$> (imap (mergedAt sys pre) pre ++ absentFields sys pre).
Proof.
  intros pre sys. unfold reconciledFields.
  rewrite (mergeSystemFields_spec _ _ _ wellNamed_systemBeforeFields). simpl app.
  fold (afterBeforeFields bookingFields).
  rewrite (bool_decide_eq_true_2 _ (sms_guard_false bookingFields)).
  rewrite andb_false_r.
  replace (if bool_decide (length bookingFields = 0%nat)
           then afterBeforeFields bookingFields
                ++ imap (migrateCustomInput slugify) customInputs
           else afterBeforeFields bookingFields) with pre.
  - by rewrite (mergeSystemFields_spec _ _ _ (wellNamed_systemAfterFields _ _)).
  - unfold pre, beforeAfterFields, migratedFields.
    case_bool_decide; [done | by rewrite app_nil_r].
Qed.

End Shape.

(** ** Counting fields by name *)

Lemma countName_nil s : countName s [] = 0%nat.
Proof. done. Qed.

Lemma countName_cons s f l :
  countName s (f :: l) = ((if hasName s f then 1 else 0) + countName s l)%nat.
Proof. unfold countName. simpl. by destruct (hasName s f). Qed.

Lemma countName_app s l l' :
  countName s (l ++ l') = (countName s l + countName s l')%nat.
Proof. unfold countName. by rewrite List.filter_app, length_app. Qed.

Lemma countName_names s l l' : names l = names l' → countName s l = countName s l'.
Proof.
  revert l'. induction l as [|f l IH]; intros [|f' l'] H; try done.
  injection H as Hf Hl. rewrite !countName_cons, (IH l' Hl).
  by rewrite (hasName_ext s f f' Hf).
Qed.

Lemma countName_0 s l : countName s l = 0%nat ↔ find_index (hasName s) l = None.
Proof.
  induction l as [|f l IH]; [done|].
  rewrite countName_cons. simpl. destruct (hasName s f); [done|].
  simpl. rewrite IH, fmap_None. done.
Qed.

Lemma bool_decide_countName_0 s l :
  bool_decide (find_index (hasName s) l = None) = bool_decide (countName s l = 0%nat).
Proof. apply bool_decide_ext. by rewrite countName_0. Qed.

Lemma countName_pos s l : (0 < countName s l)%nat ↔ ∃ f, f ∈ l ∧ hasName s f = true.
Proof.
  split.
  - intros Hpos. destruct (find_index (hasName s) l) as [i|] eqn:Hfind.
    + apply find_index_Some in Hfind as [(x & Hx & Hpx) _].
      exists x. split; [by eapply list_elem_of_lookup_2 | done].
    + apply countName_0 in Hfind. lia.
  - intros (f & Hin & Hf). destruct (countName s l) eqn:Hc; [|lia].
    apply countName_0 in Hc. rewrite find_index_None in Hc.
    rewrite (Hc f Hin) in Hf. discriminate.
Qed.

Lemma countName_absentFields sys l s :
  Forall stringNamed sys →
  countName s (absentFields sys l) =
    if bool_decide (find_index (hasName s) l = None) then countName s sys else 0%nat.
Proof.
  induction 1 as [|d sys [t Ht] _ IH].
  - by case_bool_decide.
  - unfold absentFields in *. simpl. rewrite countName_cons.
    rewrite (find_index_ext (sameName d) (hasName t))
      by (intros x _; by apply sameName_hasName).
    destruct (hasName s d) eqn:Hsd.
    + apply hasName_lookup in Hsd. assert (s = t) as -> by congruence.
      case_bool_decide; [by rewrite countName_cons, IH, (proj2 (hasName_lookup t d) Ht)|].
      by rewrite IH.
    + destruct (bool_decide (find_index (hasName t) l = None)); [|by rewrite IH].
      rewrite countName_cons, Hsd, IH. done.
Qed.

(** ** The fields of the output and where they come from *)

Section Sources.

Variable slugify : string → string.

Lemma beforeAfterFields_keeps bookingFields customInputs :
  Forall2 keeps
    (absentFields systemBeforeFields bookingFields ++ bookingFields
     ++ migratedFields slugify bookingFields customInputs)
    (beforeAfterFields slugify bookingFields customInputs).
Proof.
  unfold beforeAfterFields, afterBeforeFields. rewrite <- app_assoc.
  apply Forall2_app; [apply Forall2_keeps_refl|].
  apply Forall2_app; [|apply Forall2_keeps_refl].
  apply Forall2_keeps_merged, wellNamed_systemBeforeFields.
Qed.

Lemma reconciledFields_keeps bookingFields disableGuests additionalNotesRequired
    customInputs workflows :
  Forall2 keeps
    (sourceFields slugify bookingFields disableGuests additionalNotesRequired
       customInputs)
    (reconciledFields slugify bookingFields disableGuests additionalNotesRequired
       customInputs workflows).
Proof.
  rewrite reconciledFields_eq. unfold sourceFields, absentAfterFields.
  eapply Forall2_keeps_trans; [|apply Forall2_keeps_withFieldTypeConfig].
  rewrite !(assoc_L (++)). apply Forall2_app; [|apply Forall2_keeps_refl].
  rewrite <- !(assoc_L (++)).
  eapply Forall2_keeps_trans; [apply beforeAfterFields_keeps|].
  apply Forall2_keeps_merged, wellNamed_systemAfterFields.
Qed.

Lemma names_beforeAfterFields bookingFields customInputs :
  names (beforeAfterFields slugify bookingFields customInputs) =
  names (absentFields systemBeforeFields bookingFields ++ bookingFields
         ++ migratedFields slugify bookingFields customInputs).
Proof. apply Forall2_keeps_names, beforeAfterFields_keeps. Qed.

Lemma names_reconciledFields bookingFields disableGuests additionalNotesRequired
    customInputs workflows :
  names (reconciledFields slugify bookingFields disableGuests additionalNotesRequired
           customInputs workflows)
  = names (sourceFields slugify bookingFields disableGuests additionalNotesRequired
       customInputs).
Proof. apply Forall2_keeps_names, reconciledFields_keeps. Qed.

(** The number of fields of each name in the output. *)
Lemma countName_reconciledFields s bookingFields disableGuests additionalNotesRequired
    customInputs workflows :
  let migrated := migratedFields slugify bookingFields customInputs in
  let incoming := (countName s bookingFields + countName s migrated)%nat in
  countName s (reconciledFields slugify bookingFields disableGuests
                 additionalNotesRequired customInputs workflows)
  = ((if bool_decide (countName s bookingFields = 0%nat)
      then countName s systemBeforeFields else 0)
     + incoming
     + (if bool_decide (countName s systemBeforeFields = 0 ∧ incoming = 0)%nat
        then countName s (systemAfterFields additionalNotesRequired disableGuests)
        else 0))%nat.
Proof.
  intros migrated incoming.
  rewrite (countName_names _ _ _ (names_reconciledFields _ _ _ _ _)).
  unfold sourceFields, absentAfterFields. rewrite !countName_app.
  rewrite !countName_absentFields
    by (apply wellNamed_systemBeforeFields || apply wellNamed_systemAfterFields).
  rewrite !bool_decide_countName_0.
  rewrite (countName_names _ _ _ (names_beforeAfterFields _ _)).
  rewrite !countName_app, countName_absentFields by apply wellNamed_systemBeforeFields.
  rewrite bool_decide_countName_0. fold migrated. unfold incoming.
  repeat case_bool_decide; lia.
Qed.

End Sources.

(** ** Values of the slugify model *)

Example slugify_model_Company : slugify_model "Company" = "company".
Proof. reflexivity. Qed.

Example slugify_model_NUMBER_2 : slugify_model "NUMBER-2" = "number-2".
Proof. reflexivity. Qed.

Example slugify_model_spaces : slugify_model "  Your  Company_name " = "your-company-name".
Proof. reflexivity. Qed.

(** ** The claims *)

Lemma ensure_Ok slugify accepts bookingFields disableGuests additionalNotesRequired
    customInputs workflows out :
  ensureBookingInputsHaveSystemFields slugify accepts bookingFields disableGuests
    additionalNotesRequired customInputs workflows = Ok out ↔
  out = reconciledFields slugify bookingFields disableGuests additionalNotesRequired
          customInputs workflows ∧ accepts out = true.
Proof.
  unfold ensureBookingInputsHaveSystemFields, parse.
  destruct (accepts (reconciledFields _ _ _ _ _ _)) eqn:Hacc.
  - split; [intros [= <-]; by split | intros [-> _]; done].
  - split; [discriminate | intros [-> H]; congruence].
Qed.

(** The sources are collected as the spec says; only the insertion of the
    field that would carry them is missing. *)
Example smsNumberSources_sms_workflows :
  smsNumberSources sms_workflows
  = [JObj (obj [("id", JStr "7"); ("type", JStr "workflow");
                ("label", JStr "Workflow"); ("fieldRequired", JBool true);
                ("editUrl", JStr "/workflows/7")])].
Proof. vm_compute; reflexivity. Qed.

(** C1, as the code has it: whatever the workflows are, a non-empty field
    list without a field named smsReminderNumber is returned without one.
    The guard of the insertion asks that no field has another name than
    smsReminderNumber, which the fields name, email and location, present
    at that point, always refute. *)
Theorem C1_sms_field_not_inserted slugify accepts bookingFields disableGuests
    additionalNotesRequired customInputs workflows out :
  ensureBookingInputsHaveSystemFields slugify accepts bookingFields disableGuests
    additionalNotesRequired customInputs workflows = Ok out →
  bookingFields ≠ [] →
  countName SMS_REMINDER_NUMBER_FIELD bookingFields = 0%nat →
  countName SMS_REMINDER_NUMBER_FIELD out = 0%nat.
Proof.
  intros Hout Hne Hnone. apply ensure_Ok in Hout as [-> _].
  rewrite countName_reconciledFields, Hnone. unfold migratedFields.
  assert (length bookingFields ≠ 0%nat) as Hlen.
  { intros H0. by apply Hne, nil_length_inv. }
  rewrite (bool_decide_eq_false_2 _ Hlen).
  reflexivity.
Qed.

Lemma C1_sms_field_not_inserted_witness :
  let out := reconciledFields slugify_model sms_bookingFields false false []
               sms_workflows in
  ensureBookingInputsHaveSystemFields slugify_model eventTypeBookingFields_model
    sms_bookingFields false false [] sms_workflows = Ok out
  ∧ sms_bookingFields ≠ []
  ∧ countName SMS_REMINDER_NUMBER_FIELD sms_bookingFields = 0%nat
  ∧ length (smsNumberSources sms_workflows) = 1%nat
  ∧ names out = [JStr "name"; JStr "email"; JStr "location"; JStr "company";
                 JStr "notes"; JStr "guests"; JStr "rescheduleReason"]
  ∧ countName SMS_REMINDER_NUMBER_FIELD out = 0%nat.
Proof.
  intros out.
  assert (ensureBookingInputsHaveSystemFields slugify_model
            eventTypeBookingFields_model sms_bookingFields false false []
            sms_workflows = Ok out) as Hout.
  { apply ensure_Ok. split; [reflexivity | vm_compute; reflexivity]. }
  split; [exact Hout|].
  split; [discriminate|]. split; [vm_compute; reflexivity|].
  split; [vm_compute; reflexivity|]. split; [vm_compute; reflexivity|].
  apply (C1_sms_field_not_inserted slugify_model eventTypeBookingFields_model
           sms_bookingFields false false [] sms_workflows out Hout);
    [discriminate | vm_compute; reflexivity].
Defined.

(** C2, amended.  When the call returns, and the incoming field list has
    at most one field of each system name, and (the list being empty) no
    migrated custom input is named name, email or location and at most one
    is named each of notes, guests, rescheduleReason, the returned list has
    exactly one field named each of the six.  When no workflow contributes
    an SMS_ATTENDEE step, it has a field named smsReminderNumber exactly
    when the incoming fields or the migrated custom inputs have one. *)
Theorem C2_system_fields_exactly_once slugify accepts bookingFields disableGuests
    additionalNotesRequired customInputs workflows out :
  let migrated := migratedFields slugify bookingFields customInputs in
  ensureBookingInputsHaveSystemFields slugify accepts bookingFields disableGuests
    additionalNotesRequired customInputs workflows = Ok out →
  (∀ s, s ∈ beforeNames →
        (countName s bookingFields ≤ 1)%nat ∧ countName s migrated = 0%nat) →
  (∀ s, s ∈ afterNames →
        (countName s bookingFields + countName s migrated ≤ 1)%nat) →
  (∀ s, s ∈ beforeNames ++ afterNames → countName s out = 1%nat)
  ∧ (¬ contributesSmsStep workflows →
     ((0 < countName SMS_REMINDER_NUMBER_FIELD out)%nat ↔
      (0 < countName SMS_REMINDER_NUMBER_FIELD bookingFields
           + countName SMS_REMINDER_NUMBER_FIELD migrated)%nat)).
Proof.
  intros migrated Hout Hbefore Hafter. apply ensure_Ok in Hout as [-> _]. split.
  - intros s Hs. rewrite countName_reconciledFields. fold migrated.
    apply elem_of_app in Hs as [Hs|Hs].
    + destruct (Hbefore s Hs) as [H1 H0]. rewrite H0.
      unfold beforeNames in Hs. rewrite !elem_of_cons, elem_of_nil in Hs.
      destruct Hs as [->|[->|[->|[]]]];
        change (countName _ systemBeforeFields) with 1%nat;
        repeat case_bool_decide; lia.
    + specialize (Hafter s Hs).
      unfold afterNames in Hs. rewrite !elem_of_cons, elem_of_nil in Hs.
      destruct Hs as [->|[->|[->|[]]]];
        change (countName _ systemBeforeFields) with 0%nat;
        change (countName _ (systemAfterFields _ _)) with 1%nat;
        repeat case_bool_decide; lia.
  - intros _. rewrite countName_reconciledFields. fold migrated.
    change (countName _ systemBeforeFields) with 0%nat.
    change (countName _ (systemAfterFields _ _)) with 0%nat.
    repeat case_bool_decide; lia.
Qed.

Lemma C2_system_fields_exactly_once_witness :
  let out := reconciledFields slugify_model sms_bookingFields false false [] [] in
  ensureBookingInputsHaveSystemFields slugify_model eventTypeBookingFields_model
    sms_bookingFields false false [] [] = Ok out
  ∧ (∀ s, s ∈ beforeNames ++ afterNames → countName s out = 1%nat)
  ∧ ((0 < countName SMS_REMINDER_NUMBER_FIELD out)%nat ↔
     (0 < countName SMS_REMINDER_NUMBER_FIELD sms_bookingFields
          + countName SMS_REMINDER_NUMBER_FIELD
              (migratedFields slugify_model sms_bookingFields []))%nat).
Proof.
  intros out.
  assert (ensureBookingInputsHaveSystemFields slugify_model
            eventTypeBookingFields_model sms_bookingFields false false [] []
          = Ok out) as Hout.
  { apply ensure_Ok. split; [reflexivity | vm_compute; reflexivity]. }
  split; [exact Hout|].
  assert (∀ s, s ∈ beforeNames ++ afterNames →
               countName s sms_bookingFields = 0%nat
               ∧ countName s (migratedFields slugify_model sms_bookingFields []) = 0%nat)
    as Hnone.
  { intros s Hs. unfold beforeNames, afterNames in Hs. simpl in Hs.
    rewrite !elem_of_cons, elem_of_nil in Hs.
    destruct Hs as [->|[->|[->|[->|[->|[->|[]]]]]]]; split; vm_compute; reflexivity. }
  pose proof (C2_system_fields_exactly_once slugify_model
                eventTypeBookingFields_model sms_bookingFields false false [] []
                out Hout) as H.
  destruct H as [Hsix Hsms].
  - intros s Hs. destruct (Hnone s) as [-> ->]; [apply elem_of_app; by left|].
    split; lia.
  - intros s Hs. destruct (Hnone s) as [-> ->]; [apply elem_of_app; by right|]. lia.
  - split; [exact Hsix|]. apply Hsms.
    intros (w & step & Hw & _). by apply elem_of_nil in Hw.
Defined.

(** C2 fails as stated: the stored SMS field is returned although no
    workflow contributes a step. *)
Lemma C2_counterexample :
  let out := reconciledFields slugify_model stored_sms_bookingFields false false [] [] in
  ensureBookingInputsHaveSystemFields slugify_model eventTypeBookingFields_model
    stored_sms_bookingFields false false [] [] = Ok out
  ∧ ¬ ((0 < countName SMS_REMINDER_NUMBER_FIELD out)%nat ↔ contributesSmsStep []).
Proof.
  intros out. split.
  - apply ensure_Ok. split; [reflexivity | vm_compute; reflexivity].
  - intros [Hto _].
    assert (countName SMS_REMINDER_NUMBER_FIELD out = 1%nat) as Hc
      by (vm_compute; reflexivity).
    destruct Hto as (w & step & Hw & _); [lia|]. by apply elem_of_nil in Hw.
Qed.

(** C6.  For a non-empty incoming field list the result is the same
    whatever the custom inputs are. *)
Theorem C6_customInputs_ignored_when_nonempty slugify accepts bookingFields
    disableGuests additionalNotesRequired customInputs customInputs' workflows :
  bookingFields ≠ [] →
  ensureBookingInputsHaveSystemFields slugify accepts bookingFields disableGuests
    additionalNotesRequired customInputs workflows
  = ensureBookingInputsHaveSystemFields slugify accepts bookingFields disableGuests
      additionalNotesRequired customInputs' workflows.
Proof.
  intros Hne. unfold ensureBookingInputsHaveSystemFields, reconciledFields.
  assert (length bookingFields ≠ 0%nat) as Hlen.
  { intros H0. by apply Hne, nil_length_inv. }
  rewrite (bool_decide_eq_false_2 _ Hlen). reflexivity.
Qed.

Lemma C6_customInputs_ignored_when_nonempty_witness :
  sms_bookingFields ≠ []
  ∧ ensureBookingInputsHaveSystemFields slugify_model eventTypeBookingFields_model
      sms_bookingFields false false two_customInputs sms_workflows
    = ensureBookingInputsHaveSystemFields slugify_model eventTypeBookingFields_model
        sms_bookingFields false false [] sms_workflows.
Proof.
  split; [discriminate|].
  apply (C6_customInputs_ignored_when_nonempty slugify_model
           eventTypeBookingFields_model sms_bookingFields false false
           two_customInputs [] sms_workflows).
  discriminate.
Defined.

(** ** The first field of a given system name *)

Lemma defaultAt_found sys l i d :
  wellNamed sys → d ∈ sys → find_index (sameName d) l = Some i →
  defaultAt sys l i = Some d.
Proof.
  induction sys as [|d0 sys IH]; intros Hwell Hin Hfind.
  - by apply elem_of_nil in Hin.
  - unfold defaultAt. simpl. case_bool_decide as Hd0.
    + apply elem_of_cons in Hin as [->|Hin]; [done|].
      pose proof (defaultAt_other d0 sys l i Hwell Hd0) as Hnone.
      rewrite (IH (wellNamed_tail _ _ Hwell) Hin Hfind) in Hnone. discriminate.
    + apply elem_of_cons in Hin as [->|Hin]; [done|].
      by apply IH; [eapply wellNamed_tail|..].
Qed.

Lemma find_index_sameName d s l :
  d !! "name" = Some (JStr s) →
  find_index (sameName d) l = find_index (hasName s) l.
Proof. intros Hd. apply find_index_ext. intros x _. by apply sameName_hasName. Qed.

Lemma merged_first sys l d s i e :
  wellNamed sys → d ∈ sys → d !! "name" = Some (JStr s) →
  find_index (hasName s) l = Some i → l !! i = Some e →
  imap (mergedAt sys l) l !! i = Some (spread d e).
Proof.
  intros Hwell Hin Hd Hfind He. rewrite list_lookup_imap, He. simpl.
  unfold mergedAt. rewrite (defaultAt_found sys l i d); [done..|].
  by rewrite (find_index_sameName d s).
Qed.

(** A field whose name no system field of [sys] has is left as it is. *)
Lemma merged_foreign sys l i e s :
  wellNamed sys → l !! i = Some e → hasName s e = true →
  countName s sys = 0%nat →
  imap (mergedAt sys l) l !! i = Some e.
Proof.
  intros Hwell He Hs Hnone. rewrite list_lookup_imap, He. simpl. f_equal.
  unfold mergedAt. destruct (defaultAt sys l i) as [d|] eqn:Hd; [exfalso | done].
  apply defaultAt_Some in Hd as [Hin Hfind].
  destruct (wellNamed_elem _ _ Hwell Hin) as [t Ht].
  rewrite (find_index_sameName d t _ Ht) in Hfind.
  apply find_index_Some in Hfind as [(x & Hx & Hpx) _].
  assert (x = e) as -> by congruence.
  assert (t = s) as -> by (by eapply hasName_inj).
  apply countName_0 in Hnone. rewrite find_index_None in Hnone.
  specialize (Hnone d Hin). apply hasName_lookup in Ht. congruence.
Qed.

Lemma absent_first sys l d s :
  wellNamed sys → d ∈ sys → d !! "name" = Some (JStr s) →
  find_index (hasName s) l = None →
  ∃ j, find_index (hasName s) (absentFields sys l) = Some j
       ∧ absentFields sys l !! j = Some d.
Proof.
  intros Hwell Hin Hd Habsent.
  induction sys as [|d0 sys IH]; [by apply elem_of_nil in Hin|].
  unfold absentFields in *. simpl.
  apply elem_of_cons in Hin as [<-|Hin].
  - rewrite (find_index_sameName d s _ Hd), Habsent. simpl.
    exists O. by rewrite (proj2 (hasName_lookup s d) Hd).
  - destruct (IH (wellNamed_tail _ _ Hwell) Hin) as (j & Hj & Hdj).
    case_bool_decide; [|by exists j]. simpl.
    destruct (hasName s d0) eqn:Hd0.
    + exfalso. destruct Hwell as [_ Hnodup]. unfold names in Hnodup.
      rewrite fmap_cons in Hnodup. apply NoDup_cons in Hnodup as [Hnotin _].
      apply Hnotin. apply hasName_fieldName in Hd0. rewrite Hd0.
      rewrite <- (fieldName_lookup _ _ Hd). by apply list_elem_of_fmap_2.
    + exists (S j). by rewrite Hj.
Qed.

Lemma absent_none sys l s i :
  wellNamed sys → find_index (hasName s) l = Some i →
  find_index (hasName s) (absentFields sys l) = None.
Proof.
  intros [Hnamed _] Hfind. apply countName_0.
  rewrite countName_absentFields, Hfind by done. done.
Qed.

Lemma find_index_hasName_names s l l' :
  names l = names l' → find_index (hasName s) l = find_index (hasName s) l'.
Proof.
  intros H.
  rewrite <- !(find_index_sameName (obj [("name", JStr s)]) s) by done.
  by apply find_index_names.
Qed.

(** One pass that appends the absent fields, as the second loop does. *)
Lemma pass_append_first sys l d s :
  wellNamed sys → d ∈ sys → d !! "name" = Some (JStr s) →
  let l' := imap (mergedAt sys l) l ++ absentFields sys l in
  ∃ i g, find_index (hasName s) l' = Some i ∧ l' !! i = Some g ∧
    match find_index (hasName s) l with
    | Some i0 => i = i0 ∧ ∃ e, l !! i0 = Some e ∧ g = spread d e
    | None => g = d
    end.
Proof.
  intros Hwell Hin Hd l'. unfold l'.
  destruct (find_index (hasName s) l) as [i0|] eqn:Hfind.
  - pose proof Hfind as [(e & He & _) _]%find_index_Some.
    exists i0, (spread d e). split; [|split].
    + apply find_index_app_l.
      by rewrite (find_index_hasName_names s _ l (names_merged sys l Hwell)).
    + apply lookup_app_l_Some. by eapply merged_first.
    + eauto.
  - destruct (absent_first sys l d s Hwell Hin Hd Hfind) as (j & Hj & Hdj).
    exists (length (imap (mergedAt sys l) l) + j)%nat, d. split; [|split; [|done]].
    + rewrite find_index_app_r, Hj; [done|].
      by rewrite (find_index_hasName_names s _ l (names_merged sys l Hwell)).
    + rewrite lookup_app_r by lia. by replace (_ + j - _)%nat with j by lia.
Qed.

(** One pass that puts the absent fields in front, as the first loop does. *)
Lemma pass_prepend_first sys l d s :
  wellNamed sys → d ∈ sys → d !! "name" = Some (JStr s) →
  let l' := absentFields sys l ++ imap (mergedAt sys l) l in
  ∃ i g, find_index (hasName s) l' = Some i ∧ l' !! i = Some g ∧
    match find_index (hasName s) l with
    | Some i0 => i = (length (absentFields sys l) + i0)%nat
                 ∧ ∃ e, l !! i0 = Some e ∧ g = spread d e
    | None => g = d
    end.
Proof.
  intros Hwell Hin Hd l'. unfold l'.
  destruct (find_index (hasName s) l) as [i0|] eqn:Hfind.
  - pose proof Hfind as [(e & He & _) _]%find_index_Some.
    exists (length (absentFields sys l) + i0)%nat, (spread d e). split; [|split].
    + rewrite find_index_app_r by (by eapply absent_none).
      by rewrite (find_index_hasName_names s _ l (names_merged sys l Hwell)), Hfind.
    + rewrite lookup_app_r by lia.
      replace (_ + i0 - _)%nat with i0 by lia. by eapply merged_first.
    + eauto.
  - destruct (absent_first sys l d s Hwell Hin Hd Hfind) as (j & Hj & Hdj).
    exists j, d. split; [|split; [|done]].
    + by apply find_index_app_l.
    + by apply lookup_app_l_Some.
Qed.

Lemma find_find_index {A} (p : A → bool) (l : list A) :
  find p l = find_index p l ≫= (l !!.).
Proof.
  unfold find. induction l as [|x l IH]; simpl; [done|].
  destruct (p x); [done|]. rewrite IH. by destruct (find_index p l).
Qed.

Lemma withFieldTypeConfig_idemp e :
  withFieldTypeConfig (withFieldTypeConfig e) = withFieldTypeConfig e.
Proof.
  unfold withFieldTypeConfig at 2.
  destruct (get e "type") as [| | | |t| |] eqn:Htype; try (unfold withFieldTypeConfig; by rewrite Htype).
  destruct (FieldTypeConfigMap !! t) as [cfg|] eqn:Hcfg;
    [|unfold withFieldTypeConfig; by rewrite Htype, Hcfg].
  unfold withFieldTypeConfig, get in *.
  rewrite lookup_insert_ne by done.
  destruct (e !! "type") as [v|]; simpl in *; [|done]. subst v.
  by rewrite Hcfg, insert_insert_eq.
Qed.

Lemma withFieldTypeConfig_dom e : dom e ⊆ dom (withFieldTypeConfig e).
Proof.
  unfold withFieldTypeConfig. destruct (get e "type"); try done.
  destruct (FieldTypeConfigMap !! s); [|done]. rewrite dom_insert_L. set_solver.
Qed.

Lemma spread_absorb d e : dom d ⊆ dom e → spread d e = e.
Proof.
  intros Hdom. unfold spread. apply map_eq. intros k.
  rewrite lookup_union. destruct (e !! k) as [v|] eqn:He.
  - by destruct (d !! k).
  - destruct (d !! k) as [w|] eqn:Hd; [exfalso | done].
    apply not_elem_of_dom in He. apply He, Hdom. apply elem_of_dom. eauto.
Qed.

Lemma spread_dom d e : dom d ⊆ dom (spread d e).
Proof. unfold spread. rewrite dom_union_L. set_solver. Qed.

Section FirstNamesake.

Variable slugify : string → string.
Variables (bookingFields : list JsObject) (disableGuests additionalNotesRequired : bool).
Variables (customInputs : list CustomInput) (workflows : list WorkflowOnEventType).

Local Abbreviation out :=
  (reconciledFields slugify bookingFields disableGuests additionalNotesRequired
     customInputs workflows).
Local Abbreviation pre := (beforeAfterFields slugify bookingFields customInputs).
Local Abbreviation sysA := (systemAfterFields additionalNotesRequired disableGuests).

Lemma find_index_out s :
  find_index (hasName s) out =
  find_index (hasName s) (imap (mergedAt sysA pre) pre ++ absentFields sysA pre).
Proof.
  rewrite reconciledFields_eq. apply find_index_hasName_names.
  apply Forall2_keeps_names, Forall2_keeps_withFieldTypeConfig.
Qed.

(** The first field of the output named after an after-field [d]: the
    first such field before the second loop, spread over [d], or [d]. *)
Lemma output_first_after d s :
  d ∈ sysA → d !! "name" = Some (JStr s) →
  ∃ i g, find_index (hasName s) out = Some i
         ∧ out !! i = Some (withFieldTypeConfig g)
         ∧ match find_index (hasName s) pre with
           | Some i0 => i = i0 ∧ ∃ e, pre !! i0 = Some e ∧ g = spread d e
           | None => g = d
           end.
Proof.
  intros Hin Hd.
  destruct (pass_append_first sysA pre d s (wellNamed_systemAfterFields _ _) Hin Hd)
    as (i & g & Hi & Hg & Hcase).
  exists i, g. rewrite find_index_out. split; [done|]. split; [|done].
  rewrite reconciledFields_eq.
  by rewrite list_lookup_fmap, Hg.
Qed.

(** The first field of the output named after a before-field [d]: the
    first such incoming field, spread over [d], or [d]. *)
Lemma output_first_before d s :
  d ∈ systemBeforeFields → d !! "name" = Some (JStr s) →
  countName s sysA = 0%nat →
  ∃ i g, find_index (hasName s) out = Some i
         ∧ out !! i = Some (withFieldTypeConfig g)
         ∧ match find_index (hasName s) bookingFields with
           | Some i0 => ∃ e, bookingFields !! i0 = Some e ∧ g = spread d e
           | None => g = d
           end.
Proof.
  intros Hin Hd Hforeign.
  destruct (pass_prepend_first systemBeforeFields bookingFields d s
              wellNamed_systemBeforeFields Hin Hd) as (i & g & Hi & Hg & Hcase).
  fold (afterBeforeFields bookingFields) in Hi, Hg.
  assert (find_index (hasName s) pre = Some i) as Hipre.
  { unfold beforeAfterFields. by apply find_index_app_l. }
  assert (pre !! i = Some g) as Hgpre.
  { unfold beforeAfterFields. by apply lookup_app_l_Some. }
  assert (hasName s g = true) as Hsg.
  { apply find_index_Some in Hipre as [(x & Hx & Hpx) _]. congruence. }
  exists i, g. split; [|split].
  - rewrite find_index_out. apply find_index_app_l.
    by rewrite (find_index_hasName_names s _ pre
                  (names_merged sysA pre (wellNamed_systemAfterFields _ _))).
  - rewrite reconciledFields_eq.
    rewrite list_lookup_fmap.
    rewrite (lookup_app_l_Some _ _ _ g); [done|].
    by eapply merged_foreign; [apply wellNamed_systemAfterFields|..].
  - destruct (find_index (hasName s) bookingFields); [|done].
    by destruct Hcase as [_ ?].
Qed.

End FirstNamesake.

Section Incoming.

Variable slugify : string → string.
Variables (bookingFields : list JsObject) (customInputs : list CustomInput).

Local Abbreviation migrated := (migratedFields slugify bookingFields customInputs).
Local Abbreviation pre := (beforeAfterFields slugify bookingFields customInputs).
Local Abbreviation shift := (length (absentFields systemBeforeFields bookingFields)).

Lemma migrated_nonempty : bookingFields ≠ [] → migrated = [].
Proof.
  intros Hne. unfold migratedFields.
  rewrite bool_decide_eq_false_2; [done|]. intros H0. by apply Hne, nil_length_inv.
Qed.

Lemma pre_assoc :
  pre = absentFields systemBeforeFields bookingFields
        ++ (imap (mergedAt systemBeforeFields bookingFields) bookingFields
            ++ migrated).
Proof. unfold beforeAfterFields, afterBeforeFields. by rewrite <- app_assoc. Qed.

(** Before the second loop, the first field of a name that is not one of
    a before-field is the first such field among the incoming fields and
    the migrated ones, as it was. *)
Lemma pre_first_foreign s :
  countName s systemBeforeFields = 0%nat →
  find_index (hasName s) pre
    = (λ j, (shift + j)%nat) <$> find_index (hasName s) (bookingFields ++ migrated)
  ∧ ∀ j e, (bookingFields ++ migrated) !! j = Some e → hasName s e = true →
           pre !! (shift + j)%nat = Some e.
Proof.
  intros Hforeign. rewrite pre_assoc. split.
  - rewrite find_index_app_r.
    + f_equal. apply find_index_hasName_names. rewrite !names_app. f_equal.
      apply names_merged, wellNamed_systemBeforeFields.
    + apply countName_0. rewrite countName_absentFields, Hforeign
        by apply wellNamed_systemBeforeFields.
      by case_bool_decide.
  - intros j e He Hs. rewrite lookup_app_r by lia.
    replace (shift + j - _)%nat with j by lia.
    apply lookup_app_Some in He as [He|[Hlen He]].
    + apply lookup_app_l_Some.
      by eapply merged_foreign; [apply wellNamed_systemBeforeFields|..].
    + rewrite lookup_app_r by (by rewrite length_imap).
      by rewrite length_imap.
Qed.

Lemma migrated_hidden e : e ∈ migrated → e !! "hidden" = None.
Proof.
  unfold migratedFields. case_bool_decide; [|by intros ?%elem_of_nil].
  intros (j & Hj)%list_elem_of_lookup. rewrite list_lookup_imap in Hj.
  destruct (customInputs !! j) as [c|]; [|done]. by injection Hj as <-.
Qed.

End Incoming.

(** ** C7: the guests field *)

Lemma guestsDefault_elem anr dg : guestsDefault dg ∈ systemAfterFields anr dg.
Proof. right. left. Qed.

Lemma withFieldTypeConfig_lookup e k :
  k ≠ "fieldTypeConfig" → withFieldTypeConfig e !! k = e !! k.
Proof.
  intros Hk. unfold withFieldTypeConfig. destruct (get e "type"); try done.
  destruct (FieldTypeConfigMap !! s); [|done]. by rewrite lookup_insert_ne.
Qed.

(** C7, amended.  The first field named guests of the returned list has
    the [hidden] property of the first incoming field named guests when
    that field has one, and [hidden] equal to disableGuests otherwise (no
    incoming field named guests, or one without the property). *)
Theorem C7_guests_hidden slugify accepts bookingFields disableGuests
    additionalNotesRequired customInputs workflows out :
  ensureBookingInputsHaveSystemFields slugify accepts bookingFields disableGuests
    additionalNotesRequired customInputs workflows = Ok out →
  ∃ g, find (hasName "guests") out = Some g
       ∧ g !! "hidden"
         = Some (default (JBool disableGuests)
                   (find (hasName "guests") bookingFields ≫= (.!! "hidden"))).
Proof.
  intros Hout. apply ensure_Ok in Hout as [-> _].
  destruct (output_first_after slugify bookingFields disableGuests
              additionalNotesRequired customInputs workflows
              (guestsDefault disableGuests) "guests"
              (guestsDefault_elem _ _) eq_refl) as (i & g & Hi & Hg & Hcase).
  exists (withFieldTypeConfig g). split.
  { rewrite find_find_index, Hi. exact Hg. }
  rewrite withFieldTypeConfig_lookup by done.
  destruct (pre_first_foreign slugify bookingFields customInputs "guests" eq_refl)
    as [Hpre Hlookup].
  rewrite Hpre in Hcase. rewrite find_find_index.
  remember (length (absentFields systemBeforeFields bookingFields)) as k eqn:Hk.
  clear Hk Hpre.
  destruct (decide (bookingFields = [])) as [->|Hne].
  - simpl.
    destruct (find_index (hasName "guests") ([] ++ migratedFields slugify [] customInputs))
      as [j|] eqn:Hj; simpl in Hcase.
    + destruct Hcase as (_ & e & He & ->).
      apply find_index_Some in Hj as [(x & Hx & Hpx) _].
      rewrite (Hlookup j x Hx Hpx) in He. injection He as <-.
      unfold spread. rewrite lookup_union_r; [done|].
      eapply migrated_hidden, list_elem_of_lookup_2, Hx.
    + by subst g.
  - rewrite (migrated_nonempty slugify _ customInputs Hne), app_nil_r in Hcase, Hlookup.
    destruct (find_index (hasName "guests") bookingFields) as [j|] eqn:Hj;
      simpl in Hcase |- *.
    + destruct Hcase as (_ & e & He & ->).
      apply find_index_Some in Hj as [(x & Hx & Hpx) _].
      rewrite (Hlookup j x Hx Hpx) in He. injection He as <-. rewrite Hx. simpl.
      unfold spread. rewrite lookup_union.
      by destruct (x !! "hidden").
    + by subst g.
Qed.

Lemma C7_guests_hidden_witness :
  let out := reconciledFields slugify_model sms_bookingFields true false [] [] in
  ensureBookingInputsHaveSystemFields slugify_model eventTypeBookingFields_model
    sms_bookingFields true false [] [] = Ok out
  ∧ ∃ g, find (hasName "guests") out = Some g ∧ g !! "hidden" = Some (JBool true).
Proof.
  intros out.
  assert (ensureBookingInputsHaveSystemFields slugify_model
            eventTypeBookingFields_model sms_bookingFields true false [] []
          = Ok out) as Hout.
  { apply ensure_Ok. split; [reflexivity | vm_compute; reflexivity]. }
  split; [exact Hout|].
  exact (C7_guests_hidden slugify_model eventTypeBookingFields_model
           sms_bookingFields true false [] [] out Hout).
Defined.

(** C7 fails as stated: with disableGuests true, the guests field that
    the stored list has with [hidden: false] is returned with
    [hidden: false]. *)
Lemma C7_counterexample :
  let out := reconciledFields slugify_model visible_guests_bookingFields true false
               [] [] in
  ensureBookingInputsHaveSystemFields slugify_model eventTypeBookingFields_model
    visible_guests_bookingFields true false [] [] = Ok out
  ∧ ¬ (∀ g, g ∈ out → hasName "guests" g = true → g !! "hidden" = Some (JBool true)).
Proof.
  intros out. split.
  - apply ensure_Ok. split; [reflexivity | vm_compute; reflexivity].
  - intros Hall.
    assert (find (hasName "guests") out ≫= (.!! "hidden") = Some (JBool false)) as Hf
      by (vm_compute; reflexivity).
    destruct (find (hasName "guests") out) as [g|] eqn:Hg; [|discriminate].
    simpl in Hf. unfold find in Hg. apply List.find_some in Hg as [Hin Hname].
    apply list_elem_of_In in Hin. rewrite (Hall g Hin Hname) in Hf. discriminate.
Qed.

(** ** C3: running the reconciler on its own output *)

Lemma absentFields_settled sys l : settled sys l → absentFields sys l = [].
Proof.
  unfold absentFields. induction sys as [|d sys IH]; intros Hs; simpl; [done|].
  destruct (Hs d) as (i & e & Hi & _); [left|]. rewrite Hi. simpl.
  apply IH. intros d' Hd'. apply Hs. by right.
Qed.

Lemma merged_settled sys l : settled sys l → imap (mergedAt sys l) l = l.
Proof.
  intros Hs. apply list_eq. intros i. rewrite list_lookup_imap.
  destruct (l !! i) as [e|] eqn:He; simpl; [|done]. f_equal.
  unfold mergedAt. destruct (defaultAt sys l i) as [d|] eqn:Hd; [|done].
  apply defaultAt_Some in Hd as [Hin Hfind].
  destruct (Hs d Hin) as (i' & e' & Hi' & He' & Hdom).
  assert (i' = i) as -> by congruence. assert (e' = e) as -> by congruence.
  by apply spread_absorb.
Qed.

Lemma systemAfterFields_counterpart anr dg anr' dg' d :
  d ∈ systemAfterFields anr' dg' →
  ∃ d1 s, d1 ∈ systemAfterFields anr dg ∧ d !! "name" = Some (JStr s)
          ∧ d1 !! "name" = Some (JStr s) ∧ dom d = dom d1.
Proof.
  unfold systemAfterFields. rewrite !elem_of_cons, elem_of_nil.
  intros [->|[->|[->|[]]]]; eexists _, _.
  - split; [left|]. repeat split; vm_compute; reflexivity.
  - split; [right; left|]. repeat split; vm_compute; reflexivity.
  - split; [right; right; left|]. repeat split; vm_compute; reflexivity.
Qed.

Section Idempotence.

Variable slugify : string → string.
Variables (bookingFields : list JsObject) (disableGuests additionalNotesRequired : bool).
Variables (customInputs : list CustomInput) (workflows : list WorkflowOnEventType).

Local Abbreviation out :=
  (reconciledFields slugify bookingFields disableGuests additionalNotesRequired
     customInputs workflows).

Lemma out_settled_before : settled systemBeforeFields out.
Proof.
  intros d Hd.
  assert (∃ s, d !! "name" = Some (JStr s)
               ∧ countName s (systemAfterFields additionalNotesRequired disableGuests)
                 = 0%nat) as (s & Hs & Hforeign).
  { unfold systemBeforeFields in Hd. rewrite !elem_of_cons, elem_of_nil in Hd.
    destruct Hd as [->|[->|[->|[]]]]; eexists; split; reflexivity. }
  destruct (output_first_before slugify bookingFields disableGuests
              additionalNotesRequired customInputs workflows d s Hd Hs Hforeign)
    as (i & g & Hi & Hg & Hcase).
  exists i, (withFieldTypeConfig g).
  rewrite (find_index_sameName d s _ Hs). split; [done|]. split; [done|].
  etrans; [|apply withFieldTypeConfig_dom].
  destruct (find_index (hasName s) bookingFields).
  - destruct Hcase as (e & _ & ->). apply spread_dom.
  - by subst g.
Qed.

Lemma out_settled_after anr dg : settled (systemAfterFields anr dg) out.
Proof.
  intros d Hd.
  destruct (systemAfterFields_counterpart additionalNotesRequired disableGuests
              anr dg d Hd) as (d1 & s & Hd1 & Hs & Hs1 & Hdom).
  destruct (output_first_after slugify bookingFields disableGuests
              additionalNotesRequired customInputs workflows d1 s Hd1 Hs1)
    as (i & g & Hi & Hg & Hcase).
  exists i, (withFieldTypeConfig g).
  rewrite (find_index_sameName d s _ Hs). split; [done|]. split; [done|].
  rewrite Hdom. etrans; [|apply withFieldTypeConfig_dom].
  destruct (find_index (hasName s)
              (beforeAfterFields slugify bookingFields customInputs)).
  - destruct Hcase as (_ & e & _ & ->). apply spread_dom.
  - by subst g.
Qed.

Lemma out_nonempty : out ≠ [].
Proof.
  destruct systemBeforeFields as [|d0 sys] eqn:Hsys; [discriminate|].
  destruct (out_settled_before d0) as (i & e & _ & He & _).
  { rewrite Hsys. left. }
  intros Hnil. by rewrite Hnil in He.
Qed.

(** The reconciled list is a fixed point of the reconciliation, whatever
    the other arguments of the second run are. *)
Lemma reconciledFields_idempotent dg anr ci ws :
  reconciledFields slugify out dg anr ci ws = out.
Proof.
  rewrite reconciledFields_eq.
  assert (beforeAfterFields slugify out ci = out) as ->.
  { unfold beforeAfterFields, afterBeforeFields.
    rewrite (absentFields_settled _ _ out_settled_before).
    rewrite (merged_settled _ _ out_settled_before).
    rewrite (migrated_nonempty slugify out ci out_nonempty).
    by rewrite app_nil_r. }
  rewrite (absentFields_settled _ _ (out_settled_after anr dg)).
  rewrite (merged_settled _ _ (out_settled_after anr dg)), app_nil_r.
  rewrite (reconciledFields_eq slugify bookingFields), <- list_fmap_compose.
  apply list_fmap_ext. intros i e _. apply withFieldTypeConfig_idemp.
Qed.

End Idempotence.

(** C3.  When a call returns [out], a call on [out], with any flags, custom
    inputs and workflows, returns [out] again: hence as many fields of each
    system name as before, and every property of every field unchanged. *)
Theorem C3_rerun_is_noop slugify accepts bookingFields disableGuests
    additionalNotesRequired customInputs workflows out
    disableGuests' additionalNotesRequired' customInputs' workflows' :
  ensureBookingInputsHaveSystemFields slugify accepts bookingFields disableGuests
    additionalNotesRequired customInputs workflows = Ok out →
  ∃ out',
    ensureBookingInputsHaveSystemFields slugify accepts out disableGuests'
      additionalNotesRequired' customInputs' workflows' = Ok out'
    ∧ out' = out
    ∧ (∀ s, s ∈ SystemField → countName s out' = countName s out)
    ∧ (∀ i f, out !! i = Some f → hasName_system f →
         ∃ f', out' !! i = Some f' ∧ ∀ k v, f !! k = Some v → f' !! k = Some v).
Proof.
  intros Hout. apply ensure_Ok in Hout as [-> Hacc]. eexists. split.
  - apply ensure_Ok. split; [reflexivity|].
    by rewrite reconciledFields_idempotent.
  - rewrite reconciledFields_idempotent. split; [done|]. split; [done|]. eauto.
Qed.

Lemma C3_rerun_is_noop_witness :
  let out := reconciledFields slugify_model sms_bookingFields false false [] [] in
  ensureBookingInputsHaveSystemFields slugify_model eventTypeBookingFields_model
    sms_bookingFields false false [] [] = Ok out
  ∧ ∃ out',
      ensureBookingInputsHaveSystemFields slugify_model eventTypeBookingFields_model
        out true true two_customInputs sms_workflows = Ok out'
      ∧ out' = out
      ∧ (∀ s, s ∈ SystemField → countName s out' = countName s out)
      ∧ (∀ i f, out !! i = Some f → hasName_system f →
           ∃ f', out' !! i = Some f' ∧ ∀ k v, f !! k = Some v → f' !! k = Some v).
Proof.
  intros out.
  assert (ensureBookingInputsHaveSystemFields slugify_model
            eventTypeBookingFields_model sms_bookingFields false false [] []
          = Ok out) as Hout.
  { apply ensure_Ok. split; [reflexivity | vm_compute; reflexivity]. }
  split; [exact Hout|].
  exact (C3_rerun_is_noop slugify_model eventTypeBookingFields_model
           sms_bookingFields false false [] [] out true true two_customInputs
           sms_workflows Hout).
Defined.

(** ** C8 and C4: where the fields of the output come from *)

Lemma names_absentFields sys ns l :
  Forall2 (λ d s, d !! "name" = Some (JStr s)) sys ns →
  names (absentFields sys l)
  = JStr <$> List.filter (λ s, bool_decide (countName s l = 0%nat)) ns.
Proof.
  induction 1 as [|d s sys ns Hd _ IH]; [done|].
  unfold absentFields in *. simpl.
  rewrite (find_index_sameName d s _ Hd), bool_decide_countName_0.
  case_bool_decide; [|done].
  unfold names in *. rewrite !fmap_cons, IH. f_equal. by apply fieldName_lookup.
Qed.

Lemma systemBeforeFields_named :
  Forall2 (λ d s, d !! "name" = Some (JStr s)) systemBeforeFields beforeNames.
Proof. repeat constructor. Qed.

Lemma systemAfterFields_named anr dg :
  Forall2 (λ d s, d !! "name" = Some (JStr s)) (systemAfterFields anr dg) afterNames.
Proof. repeat constructor. Qed.

Lemma reconciledFields_parts slugify bookingFields disableGuests
    additionalNotesRequired customInputs workflows :
  ∃ X Y Z W,
    reconciledFields slugify bookingFields disableGuests additionalNotesRequired
      customInputs workflows = X ++ Y ++ Z ++ W
    ∧ Forall2 keeps (absentFields systemBeforeFields bookingFields) X
    ∧ Forall2 keeps bookingFields Y
    ∧ Forall2 keeps (migratedFields slugify bookingFields customInputs) Z
    ∧ Forall2 keeps (absentAfterFields slugify bookingFields additionalNotesRequired
                       disableGuests customInputs) W.
Proof.
  pose proof (reconciledFields_keeps slugify bookingFields disableGuests
                additionalNotesRequired customInputs workflows) as H.
  unfold sourceFields in H.
  apply Forall2_app_inv_l in H as (X & R1 & HX & H & ->).
  apply Forall2_app_inv_l in H as (Y & R2 & HY & H & ->).
  apply Forall2_app_inv_l in H as (Z & W & HZ & HW & ->).
  by exists X, Y, Z, W.
Qed.

(** C8.  The returned list is [head ++ mid ++ tail].  [head] is made of
    the before-fields name, email, location that the incoming list lacks,
    in that order.  [mid] is, position by position, the incoming fields
    followed by the migrated custom inputs, each with its name and its
    properties: the incoming fields keep their order and come after
    [head].  [head ++ mid] is, position by position, the list on which the
    append step runs, and [tail], the end of the returned list, is made of
    the after-fields notes, guests, rescheduleReason that this list lacks,
    in that order. *)
Theorem C8_field_order slugify accepts bookingFields disableGuests
    additionalNotesRequired customInputs workflows out :
  ensureBookingInputsHaveSystemFields slugify accepts bookingFields disableGuests
    additionalNotesRequired customInputs workflows = Ok out →
  ∃ head mid tail,
    out = head ++ mid ++ tail
    ∧ names head
      = JStr <$> List.filter (λ s, bool_decide (countName s bookingFields = 0%nat))
                   beforeNames
    ∧ Forall2 keeps
        (bookingFields ++ migratedFields slugify bookingFields customInputs) mid
    ∧ (∃ kept, kept `sublist_of` mid ∧ Forall2 keeps bookingFields kept)
    ∧ Forall2 keeps (beforeAfterFields slugify bookingFields customInputs)
        (head ++ mid)
    ∧ names tail
      = JStr <$> List.filter (λ s, bool_decide (countName s (head ++ mid) = 0%nat))
                   afterNames.
Proof.
  intros Hout. apply ensure_Ok in Hout as [-> _].
  rewrite reconciledFields_eq, fmap_app.
  set (pre := beforeAfterFields slugify bookingFields customInputs).
  set (sysA := systemAfterFields additionalNotesRequired disableGuests).
  assert (Forall2 keeps pre (withFieldTypeConfig <$> imap (mergedAt sysA pre) pre))
    as Hpre.
  { eapply Forall2_keeps_trans; [|apply Forall2_keeps_withFieldTypeConfig].
    apply Forall2_keeps_merged, wellNamed_systemAfterFields. }
  pose proof (Forall2_keeps_trans _ _ _
                (beforeAfterFields_keeps slugify bookingFields customInputs) Hpre)
    as Hsrc.
  apply Forall2_app_inv_l in Hsrc as (head & mid & Hhead & Hmid & Heq).
  exists head, mid, (withFieldTypeConfig <$> absentFields sysA pre).
  split; [by rewrite Heq, <- app_assoc|]. split; [|split; [done|split; [|split]]].
  - rewrite (Forall2_keeps_names _ _ Hhead).
    apply names_absentFields, systemBeforeFields_named.
  - apply Forall2_app_inv_l in Hmid as (kept & rest & Hkept & _ & ->).
    exists kept. split; [by apply sublist_inserts_r | done].
  - by rewrite <- Heq.
  - rewrite (Forall2_keeps_names _ _ (Forall2_keeps_withFieldTypeConfig _)).
    unfold sysA.
    rewrite (names_absentFields _ _ _ (systemAfterFields_named _ _)). f_equal.
    apply List.filter_ext. intros s. apply bool_decide_ext.
    rewrite (countName_names s (head ++ mid) pre); [done|].
    rewrite <- Heq. by apply Forall2_keeps_names.
Qed.

Lemma C8_field_order_witness :
  let out := reconciledFields slugify_model optional_email_bookingFields false
               false [] [] in
  ensureBookingInputsHaveSystemFields slugify_model eventTypeBookingFields_model
    optional_email_bookingFields false false [] [] = Ok out
  ∧ ∃ head mid tail,
      out = head ++ mid ++ tail
      ∧ names head = [JStr "name"; JStr "location"]
      ∧ names mid = [JStr "company"; JStr "email"]
      ∧ names tail = [JStr "notes"; JStr "guests"; JStr "rescheduleReason"].
Proof.
  intros out.
  assert (ensureBookingInputsHaveSystemFields slugify_model
            eventTypeBookingFields_model optional_email_bookingFields false false
            [] [] = Ok out) as Hout.
  { apply ensure_Ok. split; [reflexivity | vm_compute; reflexivity]. }
  split; [exact Hout|].
  destruct (C8_field_order slugify_model eventTypeBookingFields_model
              optional_email_bookingFields false false [] [] out Hout)
    as (head & mid & tail & Heq & Hhead & Hmid & _ & Hpre & Htail).
  exists head, mid, tail. split; [exact Heq|]. split; [|split].
  - rewrite Hhead. vm_compute; reflexivity.
  - rewrite (Forall2_keeps_names _ _ Hmid). vm_compute; reflexivity.
  - rewrite Htail.
    rewrite (List.filter_ext _
               (λ s, bool_decide
                  (countName s
                     (beforeAfterFields slugify_model optional_email_bookingFields
                        []) = 0%nat))).
    + vm_compute; reflexivity.
    + intros s. apply bool_decide_ext.
      by rewrite (countName_names s _ _ (Forall2_keeps_names _ _ Hpre)).
Defined.

Lemma keeps_hasName s e e' : keeps e e' → hasName s e' = hasName s e.
Proof. intros [Hn _]. by apply hasName_ext. Qed.

(** C4.  An incoming field named email with [required: false], at
    position [i], is returned at position [i] after the inserted
    before-fields, named email, with [required: false] and every other
    property it had ([fieldTypeConfig], set by the last step, apart): in
    [{...field, ...existing}] the properties of the existing field win.
    The returned list has no other field named email than those that come
    from the incoming fields named email. *)
Theorem C4_existing_required_wins slugify accepts bookingFields disableGuests
    additionalNotesRequired customInputs workflows out i f :
  ensureBookingInputsHaveSystemFields slugify accepts bookingFields disableGuests
    additionalNotesRequired customInputs workflows = Ok out →
  bookingFields !! i = Some f →
  hasName "email" f = true →
  f !! "required" = Some (JBool false) →
  let shift := length (absentFields systemBeforeFields bookingFields) in
  (∃ f', out !! (shift + i)%nat = Some f'
         ∧ hasName "email" f' = true
         ∧ f' !! "required" = Some (JBool false)
         ∧ keeps f f')
  ∧ (∀ field k v, f !! k = Some v → spread field f !! k = Some v)
  ∧ (∀ j g, out !! j = Some g → hasName "email" g = true →
       ∃ i' f0, j = (shift + i')%nat ∧ bookingFields !! i' = Some f0
                ∧ hasName "email" f0 = true ∧ keeps f0 g).
Proof.
  intros Hout Hf Hname Hreq shift. apply ensure_Ok in Hout as [-> _].
  destruct (reconciledFields_parts slugify bookingFields disableGuests
              additionalNotesRequired customInputs workflows)
    as (X & Y & Z & W & -> & HX & HY & HZ & HW).
  assert (length X = shift) as HlenX by (symmetry; by eapply Forall2_length).
  assert (bookingFields ≠ []) as Hne by (intros ->; done).
  rewrite (migrated_nonempty slugify _ customInputs Hne) in HZ.
  apply Forall2_nil_inv_l in HZ as ->. simpl.
  split; [|split].
  - destruct (Forall2_lookup_l _ _ _ _ _ HY Hf) as (f' & Hf' & Hkeeps).
    exists f'. split; [|split; [|split; [|done]]].
    + rewrite lookup_app_r by lia. replace (shift + i - length X)%nat with i by lia.
      by apply lookup_app_l_Some.
    + by rewrite (keeps_hasName _ _ _ Hkeeps).
    + by apply Hkeeps.
  - intros field k v Hk. by apply lookup_union_Some_l.
  - intros j g Hg Hgname.
    apply lookup_app_Some in Hg as [Hg|[Hj Hg]].
    { exfalso. destruct (Forall2_lookup_r _ _ _ _ _ HX Hg) as (d & Hd & Hkeeps).
      rewrite (keeps_hasName _ _ _ Hkeeps) in Hgname.
      apply list_elem_of_lookup_2, absentFields_elem in Hd as [Hin Habsent].
      destruct (wellNamed_elem _ _ wellNamed_systemBeforeFields Hin) as [s Hs].
      rewrite (find_index_sameName d s _ Hs) in Habsent.
      assert (s = "email") as -> by (eapply hasName_inj; [by apply hasName_lookup|done]).
      rewrite find_index_None in Habsent.
      rewrite (Habsent f) in Hname; [done|]. by eapply list_elem_of_lookup_2. }
    apply lookup_app_Some in Hg as [Hg|[Hj' Hg]].
    { destruct (Forall2_lookup_r _ _ _ _ _ HY Hg) as (f0 & Hf0 & Hkeeps).
      exists (j - length X)%nat, f0. split; [lia|]. split; [done|]. split; [|done].
      by rewrite <- (keeps_hasName _ _ _ Hkeeps). }
    exfalso. destruct (Forall2_lookup_r _ _ _ _ _ HW Hg) as (d & Hd & Hkeeps).
    rewrite (keeps_hasName _ _ _ Hkeeps) in Hgname.
    apply list_elem_of_lookup_2, absentFields_elem in Hd as [Hin _].
    unfold systemAfterFields in Hin. rewrite !elem_of_cons, elem_of_nil in Hin.
    destruct Hin as [->|[->|[->|[]]]]; discriminate Hgname.
Qed.

Lemma C4_existing_required_wins_witness :
  let out := reconciledFields slugify_model optional_email_bookingFields false
               false [] [] in
  ensureBookingInputsHaveSystemFields slugify_model eventTypeBookingFields_model
    optional_email_bookingFields false false [] [] = Ok out
  ∧ names out = [JStr "name"; JStr "location"; JStr "company"; JStr "email";
                 JStr "notes"; JStr "guests"; JStr "rescheduleReason"]
  ∧ ∃ f', out !! 3%nat = Some f'
          ∧ hasName "email" f' = true
          ∧ f' !! "required" = Some (JBool false)
          ∧ keeps optional_email f'.
Proof.
  intros out.
  assert (ensureBookingInputsHaveSystemFields slugify_model
            eventTypeBookingFields_model optional_email_bookingFields false false
            [] [] = Ok out) as Hout.
  { apply ensure_Ok. split; [reflexivity | vm_compute; reflexivity]. }
  split; [exact Hout|]. split; [vm_compute; reflexivity|].
  exact (proj1 (C4_existing_required_wins slugify_model
                  eventTypeBookingFields_model optional_email_bookingFields false
                  false [] [] out 1%nat optional_email Hout eq_refl eq_refl eq_refl)).
Defined.

(** ** C5: the migration of the legacy custom inputs *)

Lemma migrateOption_value o :
  ∃ o', migrateOption o = JObj o' ∧ get o' "value" = get o "label"
        ∧ ∀ k, k ≠ "value" → o' !! k = o !! k.
Proof.
  eexists. split; [reflexivity|]. split.
  - unfold get at 1. by rewrite lookup_insert_eq.
  - intros k Hk. by rewrite lookup_insert_ne.
Qed.

Lemma migrated_field_in_output slugify accepts disableGuests additionalNotesRequired
    customInputs workflows out index input :
  ensureBookingInputsHaveSystemFields slugify accepts [] disableGuests
    additionalNotesRequired customInputs workflows = Ok out →
  customInputs !! index = Some input →
  ∃ f, f ∈ out
       ∧ f !! "name" = Some (JStr (slugify (migratedNameSource index input)))
       ∧ f !! "type" = Some (JStr (CustomInputTypeToFieldType (input_type input)))
       ∧ f !! "editable" = Some (JStr "user")
       ∧ f !! "options"
         = Some (JArr (migrateOption <$> default [] (input_options input))).
Proof.
  intros Hout Hinput. apply ensure_Ok in Hout as [-> _].
  destruct (reconciledFields_parts slugify [] disableGuests
              additionalNotesRequired customInputs workflows)
    as (X & Y & Z & W & -> & _ & _ & HZ & _).
  assert (migratedFields slugify [] customInputs !! index
          = Some (migrateCustomInput slugify index input)) as Hm.
  { unfold migratedFields. simpl. by rewrite list_lookup_imap, Hinput. }
  destruct (Forall2_lookup_l _ _ _ _ _ HZ Hm) as (f & Hf & _ & Hkeeps).
  exists f. split.
  { rewrite !elem_of_app. right. right. left. by eapply list_elem_of_lookup_2. }
  repeat split; apply Hkeeps; try done.
  unfold migrateCustomInput. by destruct (input_options input).
Qed.

(** C5.  For an empty incoming list, the inputs [{label: "Company", type:
    TEXT}] and [{label: "", type: NUMBER}] give a field named company of
    type text and a field named number-2 of type number, both editable by
    the user, given that [slugify] maps Company to company and NUMBER-2 to
    number-2.  In general the input at position [index] gives a field
    named [slugify (label || type-(index+1))], of the type that the table
    gives, whose options are those of the input with [value] set to their
    label. *)
Theorem C5_legacy_migration slugify accepts disableGuests additionalNotesRequired
    workflows out company number :
  slugify "Company" = "company" →
  slugify "NUMBER-2" = "number-2" →
  input_label company = "Company" → input_type company = TEXT →
  input_label number = "" → input_type number = NUMBER →
  ensureBookingInputsHaveSystemFields slugify accepts [] disableGuests
    additionalNotesRequired [company; number] workflows = Ok out →
  (∃ f1 f2, f1 ∈ out ∧ f2 ∈ out
     ∧ f1 !! "name" = Some (JStr "company") ∧ f1 !! "type" = Some (JStr "text")
     ∧ f1 !! "editable" = Some (JStr "user")
     ∧ f2 !! "name" = Some (JStr "number-2") ∧ f2 !! "type" = Some (JStr "number")
     ∧ f2 !! "editable" = Some (JStr "user"))
  ∧ (∀ customInputs out' index input,
       ensureBookingInputsHaveSystemFields slugify accepts [] disableGuests
         additionalNotesRequired customInputs workflows = Ok out' →
       customInputs !! index = Some input →
       ∃ f, f ∈ out'
         ∧ f !! "name"
           = Some (JStr (slugify
               (if String.eqb (input_label input) "" then
                  customInputTypeName (input_type input) +:+ "-"
                  +:+ pretty (Z.of_nat index + 1)
                else input_label input)))
         ∧ f !! "type" = Some (JStr (CustomInputTypeToFieldType (input_type input)))
         ∧ f !! "editable" = Some (JStr "user")
         ∧ f !! "options"
           = Some (JArr (migrateOption <$> default [] (input_options input))))
  ∧ (CustomInputTypeToFieldType <$> [TEXT; TEXTLONG; NUMBER; BOOL; RADIO; PHONE]
     = ["text"; "textarea"; "number"; "boolean"; "radio"; "phone"])
  ∧ (∀ o, ∃ o', migrateOption o = JObj o' ∧ get o' "value" = get o "label"
                ∧ ∀ k, k ≠ "value" → o' !! k = o !! k).
Proof.
  intros Hslug1 Hslug2 Hl1 Ht1 Hl2 Ht2 Hout. split; [|split; [|split]].
  - destruct (migrated_field_in_output _ _ _ _ _ _ _ 0%nat company Hout eq_refl)
      as (f1 & Hin1 & Hn1 & Hty1 & He1 & _).
    destruct (migrated_field_in_output _ _ _ _ _ _ _ 1%nat number Hout eq_refl)
      as (f2 & Hin2 & Hn2 & Hty2 & He2 & _).
    unfold migratedNameSource in Hn1, Hn2.
    rewrite Hl1, Ht1 in *. rewrite Hl2, Ht2 in *.
    change (customInputTypeName NUMBER +:+ "-" +:+ pretty (Z.of_nat 1 + 1))
      with "NUMBER-2" in Hn2.
    simpl in Hn1. rewrite Hslug1 in Hn1. simpl in Hn2. rewrite Hslug2 in Hn2.
    by exists f1, f2.
  - intros customInputs out' index input Hout' Hinput.
    by apply (migrated_field_in_output _ _ _ _ _ _ _ index input Hout').
  - reflexivity.
  - apply migrateOption_value.
Qed.

Lemma C5_legacy_migration_witness :
  let out := reconciledFields slugify_model [] false false two_customInputs [] in
  ensureBookingInputsHaveSystemFields slugify_model eventTypeBookingFields_model
    [] false false two_customInputs [] = Ok out
  ∧ names out = [JStr "name"; JStr "email"; JStr "location"; JStr "company";
                 JStr "number-2"; JStr "notes"; JStr "guests";
                 JStr "rescheduleReason"]
  ∧ ∃ f1 f2, f1 ∈ out ∧ f2 ∈ out
     ∧ f1 !! "name" = Some (JStr "company") ∧ f1 !! "type" = Some (JStr "text")
     ∧ f1 !! "editable" = Some (JStr "user")
     ∧ f2 !! "name" = Some (JStr "number-2") ∧ f2 !! "type" = Some (JStr "number")
     ∧ f2 !! "editable" = Some (JStr "user").
Proof.
  intros out.
  assert (ensureBookingInputsHaveSystemFields slugify_model
            eventTypeBookingFields_model [] false false two_customInputs []
          = Ok out) as Hout.
  { apply ensure_Ok. split; [reflexivity | vm_compute; reflexivity]. }
  split; [exact Hout|]. split; [vm_compute; reflexivity|].
  exact (proj1 (C5_legacy_migration slugify_model eventTypeBookingFields_model
                  false false [] out companyInput numberInput eq_refl eq_refl
                  eq_refl eq_refl eq_refl eq_refl Hout)).
Defined.

(** ** C9 and C10: the entry point *)

Section EntryPoint.

Variable slugify : string → string.
Variable accepts : list JsObject → bool.
Variable parseMetaData : JsVal → Result (option MetaData).
Variable parseCustomInputs : JsVal → Result (list CustomInput).

Abbreviation getFields :=
  (getBookingFieldsWithSystemFields slugify accepts parseMetaData parseCustomInputs).

Lemma getFields_Ok bookingFields disableGuests customInputs metadata workflows out :
  getFields bookingFields disableGuests customInputs metadata workflows = Ok out →
  ∃ parsedMetaData parsedBookingFields parsedCustomInputs,
    parseMetaData (js_or metadata (JObj ∅)) = Ok parsedMetaData
    ∧ eventTypeBookingFields_parse accepts (js_or bookingFields (JArr []))
      = Ok parsedBookingFields
    ∧ parseCustomInputs (js_or customInputs (JArr [])) = Ok parsedCustomInputs
    ∧ ensureBookingInputsHaveSystemFields slugify accepts parsedBookingFields
        disableGuests (default false (parsedMetaData ≫= additionalNotesRequired))
        parsedCustomInputs (default [] workflows) = Ok out.
Proof.
  unfold getBookingFieldsWithSystemFields. intros H.
  destruct (parseMetaData _) as [md|] eqn:Hmd; [|discriminate].
  destruct (eventTypeBookingFields_parse _ _) as [bf|] eqn:Hbf; [|discriminate].
  destruct (parseCustomInputs _) as [ci|] eqn:Hci; [|discriminate].
  by exists md, bf, ci.
Qed.

Lemma getFields_parsed bookingFields disableGuests customInputs metadata workflows
    parsedMetaData parsedBookingFields parsedCustomInputs :
  parseMetaData (js_or metadata (JObj ∅)) = Ok parsedMetaData →
  eventTypeBookingFields_parse accepts (js_or bookingFields (JArr []))
    = Ok parsedBookingFields →
  parseCustomInputs (js_or customInputs (JArr [])) = Ok parsedCustomInputs →
  getFields bookingFields disableGuests customInputs metadata workflows
  = ensureBookingInputsHaveSystemFields slugify accepts parsedBookingFields
      disableGuests (default false (parsedMetaData ≫= additionalNotesRequired))
      parsedCustomInputs (default [] workflows).
Proof.
  unfold getBookingFieldsWithSystemFields. by intros -> -> ->.
Qed.

End EntryPoint.

(** C9.  When the parse of the metadata, of the field list or of the
    custom inputs fails, the call fails with the error of one of these
    parses, whatever the flag and the workflows are, and returns no list.
    When the call returns a list, the three parses have succeeded, the
    list is the result of the reconciliation of the parsed values, and the
    schema accepts it.  (The brand is a type-level tag, without a runtime
    counterpart.) *)
Theorem C9_validation_errors slugify accepts parseMetaData parseCustomInputs
    bookingFields disableGuests customInputs metadata workflows :
  ((∃ e, parseMetaData (js_or metadata (JObj ∅)) = ZodError e)
   ∨ (∃ e, eventTypeBookingFields_parse accepts (js_or bookingFields (JArr []))
           = ZodError e)
   ∨ (∃ e, parseCustomInputs (js_or customInputs (JArr [])) = ZodError e) →
   ∃ e, (parseMetaData (js_or metadata (JObj ∅)) = ZodError e
         ∨ eventTypeBookingFields_parse accepts (js_or bookingFields (JArr []))
           = ZodError e
         ∨ parseCustomInputs (js_or customInputs (JArr [])) = ZodError e)
        ∧ ∀ disableGuests' workflows',
            getBookingFieldsWithSystemFields slugify accepts parseMetaData
              parseCustomInputs bookingFields disableGuests' customInputs metadata
              workflows' = ZodError e)
  ∧ (∀ out,
       getBookingFieldsWithSystemFields slugify accepts parseMetaData
         parseCustomInputs bookingFields disableGuests customInputs metadata
         workflows = Ok out →
       accepts out = true
       ∧ ∃ parsedMetaData parsedBookingFields parsedCustomInputs,
           parseMetaData (js_or metadata (JObj ∅)) = Ok parsedMetaData
           ∧ eventTypeBookingFields_parse accepts (js_or bookingFields (JArr []))
             = Ok parsedBookingFields
           ∧ parseCustomInputs (js_or customInputs (JArr [])) = Ok parsedCustomInputs
           ∧ out = reconciledFields slugify parsedBookingFields disableGuests
                     (default false (parsedMetaData ≫= additionalNotesRequired))
                     parsedCustomInputs (default [] workflows)).
Proof.
  split.
  - intros H. unfold getBookingFieldsWithSystemFields.
    destruct (parseMetaData _) as [md|e1] eqn:Hmd;
      [|exists e1; split; [by left | done]].
    destruct (eventTypeBookingFields_parse _ _) as [bf|e2] eqn:Hbf;
      [|exists e2; split; [right; by left | done]].
    destruct (parseCustomInputs _) as [ci|e3] eqn:Hci;
      [|exists e3; split; [right; by right | done]].
    destruct H as [[e H]|[[e H]|[e H]]]; discriminate.
  - intros out Hout. apply getFields_Ok in Hout as (md & bf & ci & Hmd & Hbf & Hci & H).
    apply ensure_Ok in H as [-> Hacc]. split; [done|]. by exists md, bf, ci.
Qed.

Lemma C9_validation_errors_witness :
  (∀ disableGuests workflows,
     getBookingFieldsWithSystemFields slugify_model eventTypeBookingFields_model
       EventTypeMetaDataSchema_parse_model customInputSchema_array_parse_model
       (JStr "name,email") disableGuests JNull JNull workflows
     = ZodError BookingFieldsSchema)
  ∧ (let out := reconciledFields slugify_model sms_bookingFields false false [] [] in
     getBookingFieldsWithSystemFields slugify_model eventTypeBookingFields_model
       EventTypeMetaDataSchema_parse_model customInputSchema_array_parse_model
       (JArr (JObj <$> sms_bookingFields)) false JNull JNull None = Ok out
     ∧ eventTypeBookingFields_model out = true).
Proof.
  pose proof (C9_validation_errors slugify_model eventTypeBookingFields_model
                EventTypeMetaDataSchema_parse_model
                customInputSchema_array_parse_model) as H.
  split.
  - destruct (H (JStr "name,email") false JNull JNull None) as [Herr _].
    destruct Herr as (e & He & Hall); [right; left; by eexists|].
    destruct He as [He|[He|He]]; [discriminate He | | discriminate He].
    injection He as <-. exact Hall.
  - intros out.
    assert (getBookingFieldsWithSystemFields slugify_model
              eventTypeBookingFields_model EventTypeMetaDataSchema_parse_model
              customInputSchema_array_parse_model
              (JArr (JObj <$> sms_bookingFields)) false JNull JNull None = Ok out)
      as Hout.
    { rewrite (getFields_parsed _ _ _ _ _ _ _ _ _
                 (Some {| additionalNotesRequired := None |}) sms_bookingFields []);
        [|reflexivity | vm_compute; reflexivity | reflexivity].
      apply ensure_Ok. split; [reflexivity | vm_compute; reflexivity]. }
    split; [exact Hout|].
    destruct (H (JArr (JObj <$> sms_bookingFields)) false JNull JNull None)
      as [_ Hok].
    exact (proj1 (Hok out Hout)).
Defined.

Lemma js_or_orIfAbsent v d : truthy d = true → js_or (orIfAbsent v d) d = js_or v d.
Proof.
  intros Hd. unfold js_or. destruct v; simpl; try done; by rewrite Hd.
Qed.

(** C10.  An argument that is [null] or [undefined] is read as the empty
    list (the empty object for the metadata): the call is the call on the
    arguments so completed.  Hence, when the schemas accept the empty
    object, the empty lists and the list of the system fields, the call
    with all four arguments absent returns what the call on empty
    collections returns, the list of the system fields. *)
Theorem C10_absent_arguments slugify accepts parseMetaData parseCustomInputs
    bookingFields disableGuests customInputs metadata workflows :
  getBookingFieldsWithSystemFields slugify accepts parseMetaData parseCustomInputs
    bookingFields disableGuests customInputs metadata workflows
  = getBookingFieldsWithSystemFields slugify accepts parseMetaData parseCustomInputs
      (orIfAbsent bookingFields (JArr [])) disableGuests
      (orIfAbsent customInputs (JArr [])) (orIfAbsent metadata (JObj ∅))
      (Some (default [] workflows))
  ∧ (∀ parsedMetaData,
       isAbsent bookingFields → isAbsent customInputs → isAbsent metadata →
       workflows = None →
       parseMetaData (JObj ∅) = Ok parsedMetaData →
       parseCustomInputs (JArr []) = Ok [] →
       accepts [] = true →
       let systemFields :=
         reconciledFields slugify [] disableGuests
           (default false (parsedMetaData ≫= additionalNotesRequired)) [] [] in
       accepts systemFields = true →
       getBookingFieldsWithSystemFields slugify accepts parseMetaData
         parseCustomInputs bookingFields disableGuests customInputs metadata
         workflows = Ok systemFields
       ∧ getBookingFieldsWithSystemFields slugify accepts parseMetaData
           parseCustomInputs (JArr []) disableGuests (JArr []) (JObj ∅) (Some [])
         = Ok systemFields
       ∧ names systemFields
         = [JStr "name"; JStr "email"; JStr "location"; JStr "notes"; JStr "guests";
            JStr "rescheduleReason"]).
Proof.
  split.
  - unfold getBookingFieldsWithSystemFields.
    rewrite !js_or_orIfAbsent by done. by destruct workflows.
  - intros md Hbf Hci Hmd -> Hpm Hpc Hnil sys Hsys.
    assert (∀ v d, isAbsent v → js_or v d = d) as Habs.
    { intros v d [->| ->]; done. }
    split; [|split].
    + rewrite (getFields_parsed _ _ _ _ _ _ _ _ _ md [] []);
        rewrite ?Habs by done; try done.
      * apply ensure_Ok. by split.
      * unfold eventTypeBookingFields_parse, parse. simpl. by rewrite Hnil.
    + rewrite (getFields_parsed _ _ _ _ _ _ _ _ _ md [] []); try done.
      * apply ensure_Ok. by split.
      * unfold eventTypeBookingFields_parse, parse. simpl. by rewrite Hnil.
    + unfold sys. rewrite names_reconciledFields. reflexivity.
Qed.

Lemma C10_absent_arguments_witness :
  let systemFields := reconciledFields slugify_model [] true false [] [] in
  getBookingFieldsWithSystemFields slugify_model eventTypeBookingFields_model
    EventTypeMetaDataSchema_parse_model customInputSchema_array_parse_model
    JNull true JUndef JNull None = Ok systemFields
  ∧ getBookingFieldsWithSystemFields slugify_model eventTypeBookingFields_model
      EventTypeMetaDataSchema_parse_model customInputSchema_array_parse_model
      (JArr []) true (JArr []) (JObj ∅) (Some []) = Ok systemFields
  ∧ names systemFields
    = [JStr "name"; JStr "email"; JStr "location"; JStr "notes"; JStr "guests";
       JStr "rescheduleReason"].
Proof.
  intros systemFields.
  apply (proj2 (C10_absent_arguments slugify_model eventTypeBookingFields_model
                  EventTypeMetaDataSchema_parse_model
                  customInputSchema_array_parse_model JNull true JUndef JNull None)
           (Some {| additionalNotesRequired := None |})
           (or_introl eq_refl) (or_intror eq_refl) (or_introl eq_refl)
           eq_refl eq_refl eq_refl eq_refl).
  vm_compute; reflexivity.
Defined.

(** * Further properties of the code *)

(** ** The merge loop *)

Lemma strictEq_eq a b : strictEq a b = true → a = b.
Proof.
  destruct a, b; simpl; try discriminate; try done;
    intros H%bool_decide_eq_true; by subst.
Qed.

Lemma spread_fieldName_any d e :
  sameName d e = true → fieldName (spread d e) = fieldName e.
Proof.
  intros Hsame%strictEq_eq. unfold fieldName, get, spread in *.
  rewrite lookup_union. destruct (e !! "name") as [v|]; simpl in *.
  - by destruct (d !! "name").
  - destruct (d !! "name"); simpl in *; congruence.
Qed.

(** X1.  Whatever the system fields are, the loop never adds, removes,
    reorders or renames a booking field, and a booking field keeps every
    property it has with its value; the fields it queues are system
    fields, in their order, put after those already queued. *)
Theorem X1_mergeSystemFields_invariant systemFields missing bookingFields :
  let result := mergeSystemFields systemFields missing bookingFields in
  length result.2 = length bookingFields
  ∧ names result.2 = names bookingFields
  ∧ Forall2 (⊆) bookingFields result.2
  ∧ ∃ queued, result.1 = missing ++ queued ∧ queued `sublist_of` systemFields.
Proof.
  revert missing bookingFields.
  induction systemFields as [|d sys IH]; intros missing bf; simpl.
  - repeat split; [by apply Forall_Forall2_diag, Forall_forall|].
    exists []. by rewrite app_nil_r.
  - rewrite findIndex_eq_m1.
    destruct (find_index (sameName d) bf) as [i|] eqn:Hfind; simpl.
    + rewrite (findIndex_to_nat _ _ _ Hfind).
      destruct (IH missing (alter (spread d) i bf)) as (Hlen & Hnames & Hsub & q & Hq & Hq').
      apply find_index_Some in Hfind as [(x & Hx & Hpx) _].
      split; [by rewrite Hlen, length_alter|]. split; [|split].
      * rewrite Hnames. apply names_alter. intros e He.
        apply spread_fieldName_any. congruence.
      * eapply Forall2_trans; [intros ??? H1 H2; etrans; [exact H1 | exact H2] | | exact Hsub].
        apply Forall2_same_length_lookup. split; [by rewrite length_alter|].
        intros j e e' He He'. destruct (decide (i = j)) as [<-|Hne].
        -- rewrite list_lookup_alter_eq, He in He'. injection He' as <-.
           apply map_union_subseteq_l.
        -- rewrite list_lookup_alter_ne in He' by done. by simplify_eq.
      * exists q. split; [done | by apply sublist_cons].
    + destruct (IH (missing ++ [d]) bf) as (Hlen & Hnames & Hsub & q & Hq & Hq').
      repeat split; try done.
      exists (d :: q). split; [by rewrite Hq, <- app_assoc | by apply sublist_skip].
Qed.

(** ** The sources of the SMS field *)

Lemma smsNumberSources_cons w ws :
  smsNumberSources (w :: ws)
  = ((λ step, JObj (getSmsReminderNumberSource (workflow_id (workflow w))
                      (default false (step_numberRequired step))))
       <$> smsSteps w)
    ++ smsNumberSources ws.
Proof.
  unfold smsNumberSources. rewrite bind_cons. f_equal.
  unfold smsSteps. induction (workflow_steps (workflow w)) as [|step steps IH];
    [done|].
  rewrite bind_cons, IH. simpl. by destruct (String.eqb _ _).
Qed.

(** X2.  The sources are collected workflow by workflow: those of a
    concatenation are the concatenation of the sources; there are as many
    as SMS_ATTENDEE steps; there is none exactly when no workflow has such
    a step; and each one is the source of a workflow of the list, required
    exactly when the step has [numberRequired] true ([null] counting as
    false). *)
Theorem X2_smsNumberSources workflows workflows' :
  smsNumberSources (workflows ++ workflows')
  = smsNumberSources workflows ++ smsNumberSources workflows'
  ∧ length (smsNumberSources workflows) = sum_list (length ∘ smsSteps <$> workflows)
  ∧ (smsNumberSources workflows = [] ↔ ¬ contributesSmsStep workflows)
  ∧ (∀ v, v ∈ smsNumberSources workflows ↔
       ∃ w step, w ∈ workflows ∧ step ∈ workflow_steps (workflow w)
         ∧ step_action step = "SMS_ATTENDEE"
         ∧ v = JObj (getSmsReminderNumberSource (workflow_id (workflow w))
                       (bool_decide (step_numberRequired step = Some true)))).
Proof.
  assert (∀ v ws, v ∈ smsNumberSources ws ↔
       ∃ w step, w ∈ ws ∧ step ∈ workflow_steps (workflow w)
         ∧ step_action step = "SMS_ATTENDEE"
         ∧ v = JObj (getSmsReminderNumberSource (workflow_id (workflow w))
                       (bool_decide (step_numberRequired step = Some true))))
    as Helem.
  { intros v ws. unfold smsNumberSources. rewrite list_elem_of_bind. split.
    - intros (w & Hv & Hw). apply list_elem_of_bind in Hv as (step & Hv & Hstep).
      destruct (String.eqb (step_action step) "SMS_ATTENDEE") eqn:Ha;
        [|by apply elem_of_nil in Hv].
      apply list_elem_of_singleton in Hv as ->. apply String.eqb_eq in Ha.
      exists w, step. repeat split; try done.
      by destruct (step_numberRequired step) as [[]|].
    - intros (w & step & Hw & Hstep & Ha & ->). exists w. split; [|done].
      apply list_elem_of_bind. exists step. split; [|done].
      rewrite (proj2 (String.eqb_eq _ _) Ha). apply list_elem_of_singleton.
      by destruct (step_numberRequired step) as [[]|]. }
  split; [apply bind_app|]. split; [|split; [|intros v; apply Helem]].
  - induction workflows as [|w ws IH]; [done|].
    rewrite smsNumberSources_cons, length_app, length_fmap, IH. done.
  - split.
    + intros Hnil (w & step & Hw & Hstep & Ha).
      assert (JObj (getSmsReminderNumberSource (workflow_id (workflow w))
                (bool_decide (step_numberRequired step = Some true)))
              ∈ smsNumberSources workflows) as Hin
        by (apply Helem; by exists w, step).
      rewrite Hnil in Hin. by apply elem_of_nil in Hin.
    + intros Hno. destruct (smsNumberSources workflows) as [|v l] eqn:Hs; [done|].
      exfalso. apply Hno.
      destruct (proj1 (Helem v workflows)) as (w & step & Hw & Hstep & Ha & _).
      { rewrite Hs. left. }
      by exists w, step.
Qed.

Lemma source_lookup_id workflowId required :
  getSmsReminderNumberSource workflowId required !! "id"
  = Some (JStr (pretty workflowId)).
Proof. reflexivity. Qed.

Lemma source_lookup_fieldRequired workflowId required :
  getSmsReminderNumberSource workflowId required !! "fieldRequired"
  = Some (JBool required).
Proof. reflexivity. Qed.

Lemma source_lookup_editUrl workflowId required :
  getSmsReminderNumberSource workflowId required !! "editUrl"
  = Some (JStr ("/workflows/" +:+ pretty workflowId)).
Proof. reflexivity. Qed.

(** X3.  The [id] of a source identifies the workflow: two sources have
    the same [id] only for the same workflow id, and are equal only for
    the same workflow id and the same requirement; the [editUrl] is
    [/workflows/] followed by the [id]. *)
Theorem X3_source_identifies_workflow workflowId required workflowId' required' :
  (get (getSmsReminderNumberSource workflowId required) "id"
   = get (getSmsReminderNumberSource workflowId' required') "id"
   ↔ workflowId = workflowId')
  ∧ (getSmsReminderNumberSource workflowId required
     = getSmsReminderNumberSource workflowId' required'
     ↔ workflowId = workflowId' ∧ required = required')
  ∧ ∃ id, get (getSmsReminderNumberSource workflowId required) "id" = JStr id
          ∧ get (getSmsReminderNumberSource workflowId required) "editUrl"
            = JStr ("/workflows/" +:+ id).
Proof.
  unfold get. rewrite !source_lookup_id, source_lookup_editUrl. simpl.
  split; [|split].
  - split; [|by intros ->]. intros [= H]. by apply (inj pretty).
  - split; [|by intros [-> ->]]. intros H. split.
    + assert (Some (JStr (pretty workflowId)) = Some (JStr (pretty workflowId')))
        as [= Hid] by (by rewrite <- !(source_lookup_id _ required), H,
                                  (source_lookup_id _ required')).
      by apply (inj pretty).
    + assert (Some (JBool required) = Some (JBool required')) as [= Hr]; [|done].
      by rewrite <- (source_lookup_fieldRequired workflowId),
                 <- (source_lookup_fieldRequired workflowId'), H.
  - by eexists.
Qed.

(** X4.  The workflows never change the result: the only use of the
    collected sources is the insertion guarded at line 366, whose guard
    never holds. *)
Theorem X4_workflows_have_no_effect slugify accepts bookingFields disableGuests
    additionalNotesRequired customInputs workflows workflows' :
  ensureBookingInputsHaveSystemFields slugify accepts bookingFields disableGuests
    additionalNotesRequired customInputs workflows
  = ensureBookingInputsHaveSystemFields slugify accepts bookingFields disableGuests
      additionalNotesRequired customInputs workflows'.
Proof.
  unfold ensureBookingInputsHaveSystemFields. by rewrite !reconciledFields_eq.
Qed.

(** ** The fields of the output, one by one *)

Lemma mergedAt_id sys ns l i e :
  Forall2 (λ d s, d !! "name" = Some (JStr s)) sys ns →
  l !! i = Some e → (∀ s, s ∈ ns → hasName s e = false) →
  mergedAt sys l i e = e.
Proof.
  intros Hnamed He Hforeign. unfold mergedAt.
  destruct (defaultAt sys l i) as [d|] eqn:Hd; [exfalso | done].
  apply defaultAt_Some in Hd as [Hin Hfind].
  apply list_elem_of_lookup in Hin as [j Hj].
  destruct (Forall2_lookup_l _ _ _ _ _ Hnamed Hj) as (s & Hs & Hds).
  rewrite (find_index_sameName d s _ Hds) in Hfind.
  apply find_index_Some in Hfind as [(x & Hx & Hpx) _].
  assert (x = e) as -> by congruence.
  rewrite (Hforeign s) in Hpx; [done | by eapply list_elem_of_lookup_2].
Qed.

Lemma mergedAt_lookup_own sys l i e k v :
  e !! k = Some v → mergedAt sys l i e !! k = Some v.
Proof.
  intros He. unfold mergedAt. destruct (defaultAt sys l i); [|done].
  by apply lookup_union_Some_l.
Qed.

Lemma mergedAt_lookup_nodefault sys l i e k :
  Forall (λ d, d !! k = None) sys → mergedAt sys l i e !! k = e !! k.
Proof.
  intros Hnone. unfold mergedAt. destruct (defaultAt sys l i) as [d|] eqn:Hd; [|done].
  apply defaultAt_Some in Hd as [Hin _]. rewrite Forall_forall in Hnone.
  unfold spread. rewrite lookup_union, (Hnone d Hin). by destruct (e !! k).
Qed.

Lemma FieldTypeConfigMap_other t : t ≠ "name" → FieldTypeConfigMap !! t = None.
Proof.
  intros Ht. unfold FieldTypeConfigMap, obj at 1.
  rewrite list_to_map_cons, lookup_insert_ne by done. done.
Qed.

Lemma nameFieldTypeConfig_is_Some : is_Some nameFieldTypeConfig.
Proof.
  unfold nameFieldTypeConfig, FieldTypeConfigMap, obj at 1.
  rewrite list_to_map_cons, lookup_insert_eq. by eexists.
Qed.

Lemma withFieldTypeConfig_other f :
  get f "type" ≠ JStr "name" → withFieldTypeConfig f = f.
Proof.
  intros Ht. unfold withFieldTypeConfig. destruct (get f "type") as [| | | |t| |]; try done.
  rewrite FieldTypeConfigMap_other; [done | congruence].
Qed.

Lemma withFieldTypeConfig_name f :
  get f "type" = JStr "name" →
  withFieldTypeConfig f !! "fieldTypeConfig" = nameFieldTypeConfig.
Proof.
  intros Ht. unfold withFieldTypeConfig. rewrite Ht. fold nameFieldTypeConfig.
  destruct nameFieldTypeConfig_is_Some as [cfg ->]. by rewrite lookup_insert_eq.
Qed.

Lemma withFieldTypeConfig_type f :
  get (withFieldTypeConfig f) "type" = get f "type".
Proof. unfold get. by rewrite withFieldTypeConfig_lookup. Qed.

Lemma systemBeforeFields_no_config :
  Forall (λ d, d !! "fieldTypeConfig" = None) systemBeforeFields.
Proof. repeat constructor. Qed.

Lemma systemAfterFields_no_config anr dg :
  Forall (λ d, d !! "fieldTypeConfig" = None) (systemAfterFields anr dg).
Proof. repeat constructor. Qed.

(** The field returned for the incoming field at position [i]. *)
Lemma output_at_incoming slugify bookingFields disableGuests additionalNotesRequired
    customInputs workflows i e :
  bookingFields !! i = Some e →
  let shift := length (absentFields systemBeforeFields bookingFields) in
  reconciledFields slugify bookingFields disableGuests additionalNotesRequired
    customInputs workflows !! (shift + i)%nat
  = Some (withFieldTypeConfig
            (mergedAt (systemAfterFields additionalNotesRequired disableGuests)
               (beforeAfterFields slugify bookingFields customInputs) (shift + i)
               (mergedAt systemBeforeFields bookingFields i e)))
  ∧ beforeAfterFields slugify bookingFields customInputs !! (shift + i)%nat
    = Some (mergedAt systemBeforeFields bookingFields i e).
Proof.
  intros He shift.
  assert (beforeAfterFields slugify bookingFields customInputs !! (shift + i)%nat
          = Some (mergedAt systemBeforeFields bookingFields i e)) as Hpre.
  { rewrite pre_assoc, lookup_app_r by (unfold shift; lia).
    replace (shift + i - _)%nat with i by (unfold shift; lia).
    apply lookup_app_l_Some. by rewrite list_lookup_imap, He. }
  split; [|done]. rewrite reconciledFields_eq, list_lookup_fmap.
  rewrite (lookup_app_l_Some _ _ _
             (mergedAt (systemAfterFields additionalNotesRequired disableGuests)
                (beforeAfterFields slugify bookingFields customInputs) (shift + i)
                (mergedAt systemBeforeFields bookingFields i e))); [done|].
  by rewrite list_lookup_imap, Hpre.
Qed.

(** X5.  A field of the incoming list that is not named after one of the
    six system fields, and whose type is not [name], is returned as it
    is, at its position after the inserted before-fields. *)
Theorem X5_user_fields_untouched slugify accepts bookingFields disableGuests
    additionalNotesRequired customInputs workflows out i f :
  ensureBookingInputsHaveSystemFields slugify accepts bookingFields disableGuests
    additionalNotesRequired customInputs workflows = Ok out →
  bookingFields !! i = Some f →
  (∀ s, s ∈ beforeNames ++ afterNames → hasName s f = false) →
  get f "type" ≠ JStr "name" →
  out !! (length (absentFields systemBeforeFields bookingFields) + i)%nat = Some f.
Proof.
  intros Hout Hf Hforeign Htype. apply ensure_Ok in Hout as [-> _].
  destruct (output_at_incoming slugify bookingFields disableGuests
              additionalNotesRequired customInputs workflows i f Hf) as [-> Hpre].
  rewrite (mergedAt_id _ _ _ _ _ systemBeforeFields_named Hf) in Hpre |- *
    by (intros s Hs; apply Hforeign, elem_of_app; by left).
  rewrite (mergedAt_id _ _ _ _ _ (systemAfterFields_named _ _) Hpre)
    by (intros s Hs; apply Hforeign, elem_of_app; by right).
  by rewrite withFieldTypeConfig_other.
Qed.

Lemma X5_user_fields_untouched_witness :
  let out := reconciledFields slugify_model stale_bookingFields true true [] [] in
  ensureBookingInputsHaveSystemFields slugify_model eventTypeBookingFields_model
    stale_bookingFields true true [] [] = Ok out
  ∧ out !! 2%nat = Some user_field.
Proof.
  intros out.
  assert (ensureBookingInputsHaveSystemFields slugify_model
            eventTypeBookingFields_model stale_bookingFields true true [] []
          = Ok out) as Hout.
  { apply ensure_Ok. split; [reflexivity | vm_compute; reflexivity]. }
  split; [exact Hout|].
  apply (X5_user_fields_untouched slugify_model eventTypeBookingFields_model
           stale_bookingFields true true [] [] out 0%nat user_field Hout eq_refl).
  - intros s Hs. unfold beforeNames, afterNames in Hs. simpl in Hs.
    rewrite !elem_of_cons, elem_of_nil in Hs.
    destruct Hs as [->|[->|[->|[->|[->|[->|[]]]]]]]; vm_compute; reflexivity.
  - discriminate.
Defined.

(** X6.  Every returned field whose type is [name] carries the
    [fieldTypeConfig] registered for that type, whatever it carried
    before; an incoming field with another type keeps the
    [fieldTypeConfig] it has, or has none. *)
Theorem X6_fieldTypeConfig slugify accepts bookingFields disableGuests
    additionalNotesRequired customInputs workflows out :
  ensureBookingInputsHaveSystemFields slugify accepts bookingFields disableGuests
    additionalNotesRequired customInputs workflows = Ok out →
  is_Some nameFieldTypeConfig
  ∧ (∀ f, f ∈ out → get f "type" = JStr "name" →
          f !! "fieldTypeConfig" = nameFieldTypeConfig)
  ∧ (∀ i e t, bookingFields !! i = Some e → e !! "type" = Some (JStr t) →
       ∃ f, out !! (length (absentFields systemBeforeFields bookingFields) + i)%nat
            = Some f
            ∧ f !! "type" = Some (JStr t)
            ∧ f !! "fieldTypeConfig"
              = if bool_decide (t = "name") then nameFieldTypeConfig
                else e !! "fieldTypeConfig").
Proof.
  intros Hout. apply ensure_Ok in Hout as [-> _].
  split; [apply nameFieldTypeConfig_is_Some|]. split.
  - intros f Hf Htype. rewrite reconciledFields_eq in Hf.
    apply list_elem_of_fmap in Hf as (x & -> & _).
    rewrite withFieldTypeConfig_type in Htype. by apply withFieldTypeConfig_name.
  - intros i e t He Htype.
    destruct (output_at_incoming slugify bookingFields disableGuests
                additionalNotesRequired customInputs workflows i e He) as [-> _].
    eexists. split; [reflexivity|].
    set (e2 := mergedAt _ _ _ (mergedAt _ _ _ e)).
    assert (e2 !! "type" = Some (JStr t)) as Htype2
      by (by apply mergedAt_lookup_own, mergedAt_lookup_own).
    assert (e2 !! "fieldTypeConfig" = e !! "fieldTypeConfig") as Hcfg.
    { unfold e2.
      rewrite (mergedAt_lookup_nodefault _ _ _ _ _ (systemAfterFields_no_config _ _)).
      apply mergedAt_lookup_nodefault, systemBeforeFields_no_config. }
    split; [by rewrite withFieldTypeConfig_lookup|].
    case_bool_decide as Hname.
    + subst t. apply withFieldTypeConfig_name. unfold get. by rewrite Htype2.
    + rewrite withFieldTypeConfig_other; [done|].
      unfold get. rewrite Htype2. simpl. congruence.
Qed.

Lemma X6_fieldTypeConfig_witness :
  let out := reconciledFields slugify_model stale_bookingFields true true [] [] in
  ensureBookingInputsHaveSystemFields slugify_model eventTypeBookingFields_model
    stale_bookingFields true true [] [] = Ok out
  ∧ stale_name !! "fieldTypeConfig" = Some (JStr "stale")
  ∧ ∃ f, out !! 3%nat = Some f
         ∧ f !! "type" = Some (JStr "name")
         ∧ f !! "fieldTypeConfig" = nameFieldTypeConfig.
Proof.
  intros out.
  assert (ensureBookingInputsHaveSystemFields slugify_model
            eventTypeBookingFields_model stale_bookingFields true true [] []
          = Ok out) as Hout.
  { apply ensure_Ok. split; [reflexivity | vm_compute; reflexivity]. }
  split; [exact Hout|]. split; [reflexivity|].
  exact (proj2 (proj2 (X6_fieldTypeConfig slugify_model
                         eventTypeBookingFields_model stale_bookingFields true true
                         [] [] out Hout))
           1%nat stale_name "name" eq_refl eq_refl).
Defined.

(** X7.  Whatever the input, a returned list has at least one field named
    each of name, email, location, notes, guests and rescheduleReason, and
    as many fields as the incoming list, the migrated custom inputs and
    the system fields that were inserted: no field is dropped. *)
Theorem X7_system_fields_present slugify accepts bookingFields disableGuests
    additionalNotesRequired customInputs workflows out :
  ensureBookingInputsHaveSystemFields slugify accepts bookingFields disableGuests
    additionalNotesRequired customInputs workflows = Ok out →
  (∀ s, s ∈ beforeNames ++ afterNames → (1 ≤ countName s out)%nat)
  ∧ length out
    = (length (absentFields systemBeforeFields bookingFields)
       + length bookingFields
       + length (migratedFields slugify bookingFields customInputs)
       + length (absentAfterFields slugify bookingFields additionalNotesRequired
                   disableGuests customInputs))%nat.
Proof.
  intros Hout. apply ensure_Ok in Hout as [-> _]. split.
  - intros s Hs. rewrite countName_reconciledFields.
    unfold beforeNames, afterNames in Hs. simpl in Hs.
    rewrite !elem_of_cons, elem_of_nil in Hs.
    destruct Hs as [->|[->|[->|[->|[->|[->|[]]]]]]];
      first [ change (countName _ systemBeforeFields) with 1%nat
            | change (countName _ systemBeforeFields) with 0%nat;
              change (countName _ (systemAfterFields _ _)) with 1%nat ];
      repeat case_bool_decide; lia.
  - rewrite <- (Forall2_length _ _ _
                  (reconciledFields_keeps slugify bookingFields disableGuests
                     additionalNotesRequired customInputs workflows)).
    unfold sourceFields. rewrite !length_app. lia.
Qed.

Lemma X7_system_fields_present_witness :
  let out := reconciledFields slugify_model stale_bookingFields true true [] [] in
  ensureBookingInputsHaveSystemFields slugify_model eventTypeBookingFields_model
    stale_bookingFields true true [] [] = Ok out
  ∧ (∀ s, s ∈ beforeNames ++ afterNames → (1 ≤ countName s out)%nat)
  ∧ length out = 7%nat.
Proof.
  intros out.
  assert (ensureBookingInputsHaveSystemFields slugify_model
            eventTypeBookingFields_model stale_bookingFields true true [] []
          = Ok out) as Hout.
  { apply ensure_Ok. split; [reflexivity | vm_compute; reflexivity]. }
  split; [exact Hout|].
  destruct (X7_system_fields_present slugify_model eventTypeBookingFields_model
              stale_bookingFields true true [] [] out Hout) as [Hsix Hlen].
  split; [exact Hsix|]. rewrite Hlen. vm_compute; reflexivity.
Defined.

(** ** The merge with the defaults, for every system field *)

Lemma spread_empty d : spread d ∅ = d.
Proof. unfold spread. by rewrite (left_id_L ∅ (∪)). Qed.

Lemma first_after_field_lookup slugify bookingFields disableGuests
    additionalNotesRequired customInputs workflows field s k :
  field ∈ systemAfterFields additionalNotesRequired disableGuests →
  field !! "name" = Some (JStr s) → k ≠ "fieldTypeConfig" →
  ∃ g, find (hasName s)
         (reconciledFields slugify bookingFields disableGuests
            additionalNotesRequired customInputs workflows) = Some g
       ∧ g !! k
         = spread field
             (default ∅
                (find (hasName s)
                   (bookingFields
                    ++ migratedFields slugify bookingFields customInputs)))
           !! k.
Proof.
  intros Hd Hs Hk. rename field into d.
  assert (countName s systemBeforeFields = 0%nat) as Hforeign.
  { unfold systemAfterFields in Hd. rewrite !elem_of_cons, elem_of_nil in Hd.
    destruct Hd as [->|[->|[->|[]]]]; injection Hs as <-; reflexivity. }
  destruct (output_first_after slugify bookingFields disableGuests
              additionalNotesRequired customInputs workflows d s Hd Hs)
    as (i & g & Hi & Hg & Hcase).
  exists (withFieldTypeConfig g). split; [by rewrite find_find_index, Hi|].
  rewrite withFieldTypeConfig_lookup by done. rewrite find_find_index.
  destruct (pre_first_foreign slugify bookingFields customInputs s Hforeign)
    as [Hpre Hlookup].
  rewrite Hpre in Hcase.
  remember (length (absentFields systemBeforeFields bookingFields)) as sh eqn:Hsh.
  clear Hsh Hpre.
  destruct (find_index (hasName s)
              (bookingFields ++ migratedFields slugify bookingFields customInputs))
    as [j|] eqn:Hj; simpl in Hcase |- *.
  - destruct Hcase as (_ & e & He & ->).
    apply find_index_Some in Hj as [(x & Hx & Hpx) _].
    rewrite (Hlookup j x Hx Hpx) in He. injection He as <-. by rewrite Hx.
  - subst g. by rewrite spread_empty.
Qed.

(** X8.  For each of the six system fields, the first returned field of
    its name has, for every property but [fieldTypeConfig], the value of
    [{...field, ...existing}]: the value of the first incoming field of
    that name when it has the property, and the value of the code
    otherwise (also when there is no such incoming field).  For name,
    email and location the incoming fields are those of the field list;
    for notes, guests and rescheduleReason they include the migrated
    custom inputs. *)
Theorem X8_defaults_fill_gaps slugify accepts bookingFields disableGuests
    additionalNotesRequired customInputs workflows out :
  ensureBookingInputsHaveSystemFields slugify accepts bookingFields disableGuests
    additionalNotesRequired customInputs workflows = Ok out →
  (∀ field s k, field ∈ systemBeforeFields → field !! "name" = Some (JStr s) →
     k ≠ "fieldTypeConfig" →
     ∃ g, find (hasName s) out = Some g
          ∧ g !! k
            = spread field (default ∅ (find (hasName s) bookingFields)) !! k)
  ∧ (∀ field s k,
       field ∈ systemAfterFields additionalNotesRequired disableGuests →
       field !! "name" = Some (JStr s) → k ≠ "fieldTypeConfig" →
       ∃ g, find (hasName s) out = Some g
            ∧ g !! k
              = spread field
                  (default ∅
                     (find (hasName s)
                        (bookingFields
                         ++ migratedFields slugify bookingFields customInputs)))
                !! k).
Proof.
  intros Hout. apply ensure_Ok in Hout as [-> _]. split.
  - intros d s k Hd Hs Hk.
    assert (countName s (systemAfterFields additionalNotesRequired disableGuests)
            = 0%nat) as Hforeign.
    { unfold systemBeforeFields in Hd. rewrite !elem_of_cons, elem_of_nil in Hd.
      destruct Hd as [->|[->|[->|[]]]]; injection Hs as <-; reflexivity. }
    destruct (output_first_before slugify bookingFields disableGuests
                additionalNotesRequired customInputs workflows d s Hd Hs Hforeign)
      as (i & g & Hi & Hg & Hcase).
    exists (withFieldTypeConfig g). split; [by rewrite find_find_index, Hi|].
    rewrite withFieldTypeConfig_lookup by done. rewrite find_find_index.
    destruct (find_index (hasName s) bookingFields) as [i0|]; simpl.
    + destruct Hcase as (e & -> & ->). done.
    + subst g. by rewrite spread_empty.
  - intros d s k Hd Hs Hk. by apply first_after_field_lookup.
Qed.

(** A stored notes field without [required], and without the [sources]
    that the code gives it. *)
Lemma X8_defaults_fill_gaps_witness :
  let bookingFields :=
    [obj [("name", JStr "notes"); ("type", JStr "textarea");
          ("defaultLabel", JStr "my_notes")]] in
  let out := reconciledFields slugify_model bookingFields false true [] [] in
  ensureBookingInputsHaveSystemFields slugify_model eventTypeBookingFields_model
    bookingFields false true [] [] = Ok out
  ∧ ∃ g, find (hasName "notes") out = Some g
         ∧ g !! "required" = Some (JBool true)
         ∧ ∃ g', find (hasName "notes") out = Some g'
                 ∧ g' !! "defaultLabel" = Some (JStr "my_notes").
Proof.
  intros bookingFields out.
  assert (ensureBookingInputsHaveSystemFields slugify_model
            eventTypeBookingFields_model bookingFields false true [] []
          = Ok out) as Hout.
  { apply ensure_Ok. split; [reflexivity | vm_compute; reflexivity]. }
  split; [exact Hout|].
  pose proof (proj2 (X8_defaults_fill_gaps slugify_model
                       eventTypeBookingFields_model bookingFields false true [] []
                       out Hout)) as H.
  destruct (H _ "notes" "required" (list_elem_of_here _ _) eq_refl)
    as (g & Hg & Hreq); [discriminate|].
  destruct (H _ "notes" "defaultLabel" (list_elem_of_here _ _) eq_refl)
    as (g' & Hg' & Hlabel); [discriminate|].
  exists g. split; [exact Hg|]. split; [exact Hreq|].
  exists g'. split; [exact Hg'|]. exact Hlabel.
Defined.

(** ** What the two flags change *)

Lemma agreeUpToFlags_refl f : agreeUpToFlags f f.
Proof. by split. Qed.

Lemma sameName_fieldName d d' e :
  fieldName d = fieldName d' → sameName d e = sameName d' e.
Proof. unfold sameName, fieldName. by intros ->. Qed.

Lemma agreeUpToFlags_spread d d' e :
  agreeUpToFlags d d' → sameName d e = true →
  agreeUpToFlags (spread d e) (spread d' e).
Proof.
  intros [Hname Hagree] Hsame.
  assert (sameName d' e = true) as Hsame'
    by (by rewrite <- (sameName_fieldName d d' e Hname)).
  assert (fieldName (spread d e) = fieldName d) as Hd.
  { rewrite spread_fieldName_any by done. by apply strictEq_eq in Hsame. }
  split.
  - by rewrite !spread_fieldName_any.
  - intros k Hk1 Hk2. unfold spread. rewrite !lookup_union.
    destruct (e !! k); [by destruct (d !! k), (d' !! k)|].
    rewrite Hagree; [done|..].
    + intros [-> Hn]. apply Hk1. split; [done|].
      by rewrite (hasName_ext "notes" _ d Hd).
    + intros [-> Hn]. apply Hk2. split; [done|].
      by rewrite (hasName_ext "guests" _ d Hd).
Qed.

Lemma agreeUpToFlags_withFieldTypeConfig f f' :
  agreeUpToFlags f f' →
  agreeUpToFlags (withFieldTypeConfig f) (withFieldTypeConfig f').
Proof.
  intros [Hname Hagree].
  assert (get f "type" = get f' "type") as Htype.
  { unfold get. rewrite Hagree; [done|intros [? _]; done..]. }
  assert (∀ s, hasName s (withFieldTypeConfig f) = hasName s f) as Hn.
  { intros s. apply hasName_ext, keeps_withFieldTypeConfig. }
  split.
  - destruct (keeps_withFieldTypeConfig f) as [-> _].
    by destruct (keeps_withFieldTypeConfig f') as [-> _].
  - intros k Hk1 Hk2. rewrite !Hn in *.
    unfold withFieldTypeConfig. rewrite <- Htype.
    destruct (get f "type"); try by apply Hagree.
    destruct (FieldTypeConfigMap !! s) as [cfg|]; [|by apply Hagree].
    destruct (decide (k = "fieldTypeConfig")) as [->|Hne].
    + by rewrite !lookup_insert_eq.
    + rewrite !lookup_insert_ne by done. by apply Hagree.
Qed.

Lemma absentFields_agree sys sys' l :
  Forall2 agreeUpToFlags sys sys' →
  Forall2 agreeUpToFlags (absentFields sys l) (absentFields sys' l).
Proof.
  unfold absentFields. induction 1 as [|d d' sys sys' [Hname Hagree] _ IH]; simpl;
    [constructor|].
  rewrite (find_index_ext (sameName d') (sameName d))
    by (intros x _; symmetry; by apply sameName_fieldName).
  case_bool_decide; [constructor; [by split | done] | done].
Qed.

Lemma defaultAt_agree sys sys' l i :
  Forall2 agreeUpToFlags sys sys' →
  option_Forall2 agreeUpToFlags (defaultAt sys l i) (defaultAt sys' l i).
Proof.
  unfold defaultAt. induction 1 as [|d d' sys sys' [Hname Hagree] _ IH]; simpl;
    [constructor|].
  rewrite (find_index_ext (sameName d') (sameName d))
    by (intros x _; symmetry; by apply sameName_fieldName).
  case_bool_decide; [constructor; by split | done].
Qed.

Lemma mergedAt_agree sys sys' l i e :
  Forall2 agreeUpToFlags sys sys' → l !! i = Some e →
  agreeUpToFlags (mergedAt sys l i e) (mergedAt sys' l i e).
Proof.
  intros Hsys He. unfold mergedAt.
  pose proof (defaultAt_agree sys sys' l i Hsys) as Hd.
  destruct (defaultAt sys l i) as [d|] eqn:Hdef; inversion Hd as [d1 d' Hdd'|]; subst.
  - apply agreeUpToFlags_spread; [done|].
    apply defaultAt_Some in Hdef as [_ Hfind].
    apply find_index_Some in Hfind as [(x & Hx & Hpx) _]. congruence.
  - apply agreeUpToFlags_refl.
Qed.

Ltac same_lookups :=
  unfold obj; rewrite !list_to_map_cons, !lookup_insert;
  repeat case_decide; try done; congruence.

Lemma systemAfterFields_agree anr dg anr' dg' :
  Forall2 agreeUpToFlags (systemAfterFields anr dg) (systemAfterFields anr' dg').
Proof.
  unfold systemAfterFields. repeat constructor.
  - intros k Hk _.
    assert (k ≠ "required") by (intros ->; apply Hk; by split).
    same_lookups.
  - intros k _ Hk.
    assert (k ≠ "hidden") by (intros ->; apply Hk; by split).
    same_lookups.
Qed.

(** X9.  The two flags change neither the number nor the order nor the
    names of the returned fields, and no property of any of them except
    [required] on a field named notes and [hidden] on a field named
    guests. *)
Theorem X9_flags_change_only_required_and_hidden slugify accepts bookingFields
    disableGuests additionalNotesRequired disableGuests' additionalNotesRequired'
    customInputs workflows out out' :
  ensureBookingInputsHaveSystemFields slugify accepts bookingFields disableGuests
    additionalNotesRequired customInputs workflows = Ok out →
  ensureBookingInputsHaveSystemFields slugify accepts bookingFields disableGuests'
    additionalNotesRequired' customInputs workflows = Ok out' →
  length out = length out'
  ∧ names out = names out'
  ∧ Forall2 agreeUpToFlags out out'.
Proof.
  intros Hout Hout'.
  apply ensure_Ok in Hout as [-> _]. apply ensure_Ok in Hout' as [-> _].
  assert (Forall2 agreeUpToFlags
            (reconciledFields slugify bookingFields disableGuests
               additionalNotesRequired customInputs workflows)
            (reconciledFields slugify bookingFields disableGuests'
               additionalNotesRequired' customInputs workflows)) as Hagree.
  { rewrite !reconciledFields_eq.
    apply Forall2_fmap, Forall2_impl
      with (P := agreeUpToFlags); [|apply agreeUpToFlags_withFieldTypeConfig].
    apply Forall2_app.
    - apply Forall2_same_length_lookup. split; [by rewrite !length_imap|].
      intros i e e' He He'. rewrite list_lookup_imap in He, He'.
      destruct (beforeAfterFields slugify bookingFields customInputs !! i)
        as [x|] eqn:Hx; [|done].
      injection He as <-. injection He' as <-.
      by apply mergedAt_agree; [apply systemAfterFields_agree|].
    - apply absentFields_agree, systemAfterFields_agree. }
  split; [by eapply Forall2_length|]. split; [|done].
  clear -Hagree. induction Hagree as [|f f' l l' [Hn _] _ IH]; [done|].
  unfold names in *. rewrite !fmap_cons. by f_equal.
Qed.

Lemma X9_flags_change_only_required_and_hidden_witness :
  let out := reconciledFields slugify_model sms_bookingFields false false [] [] in
  let out' := reconciledFields slugify_model sms_bookingFields true true [] [] in
  ensureBookingInputsHaveSystemFields slugify_model eventTypeBookingFields_model
    sms_bookingFields false false [] [] = Ok out
  ∧ ensureBookingInputsHaveSystemFields slugify_model eventTypeBookingFields_model
      sms_bookingFields true true [] [] = Ok out'
  ∧ length out = length out'
  ∧ names out = names out'
  ∧ Forall2 agreeUpToFlags out out'.
Proof.
  intros out out'.
  assert (ensureBookingInputsHaveSystemFields slugify_model
            eventTypeBookingFields_model sms_bookingFields false false [] []
          = Ok out) as Hout.
  { apply ensure_Ok. split; [reflexivity | vm_compute; reflexivity]. }
  assert (ensureBookingInputsHaveSystemFields slugify_model
            eventTypeBookingFields_model sms_bookingFields true true [] []
          = Ok out') as Hout'.
  { apply ensure_Ok. split; [reflexivity | vm_compute; reflexivity]. }
  split; [exact Hout|]. split; [exact Hout'|].
  exact (X9_flags_change_only_required_and_hidden slugify_model
           eventTypeBookingFields_model sms_bookingFields false false true true
           [] [] out out' Hout Hout').
Defined.

(** ** The migration path *)

Lemma fieldName_migrateCustomInput slugify index input :
  fieldName (migrateCustomInput slugify index input)
  = JStr (slugify (migratedNameSource index input)).
Proof. reflexivity. Qed.

Lemma names_migrated slugify customInputs :
  names (imap (migrateCustomInput slugify) customInputs)
  = JStr <$> migratedNames slugify customInputs.
Proof.
  unfold names, migratedNames. apply list_eq. intros i.
  rewrite !list_lookup_fmap, !list_lookup_imap.
  by destruct (customInputs !! i).
Qed.

(** X10.  On the migration path the field made from a custom input has
    the [required] flag and the [placeholder] of the input, and for
    [label] the label of the input or, when that is empty, the name of its
    type with only the first letter in upper case (Text, Textlong, Number,
    Bool, Radio, Phone). *)
Theorem X10_migrated_field_properties slugify accepts disableGuests
    additionalNotesRequired customInputs workflows out index input :
  ensureBookingInputsHaveSystemFields slugify accepts [] disableGuests
    additionalNotesRequired customInputs workflows = Ok out →
  customInputs !! index = Some input →
  (∃ f, f ∈ out
     ∧ f !! "name" = Some (JStr (slugify (migratedNameSource index input)))
     ∧ f !! "required" = Some (JBool (input_required input))
     ∧ f !! "placeholder" = Some (JStr (input_placeholder input))
     ∧ f !! "label"
       = Some (JStr (if String.eqb (input_label input) "" then
                       upperCaseToCamelCase (customInputTypeName (input_type input))
                     else input_label input)))
  ∧ (upperCaseToCamelCase ∘ customInputTypeName
       <$> [TEXT; TEXTLONG; NUMBER; BOOL; RADIO; PHONE])
    = ["Text"; "Textlong"; "Number"; "Bool"; "Radio"; "Phone"].
Proof.
  intros Hout Hinput. split; [|reflexivity]. apply ensure_Ok in Hout as [-> _].
  destruct (reconciledFields_parts slugify [] disableGuests
              additionalNotesRequired customInputs workflows)
    as (X & Y & Z & W & -> & _ & _ & HZ & _).
  assert (migratedFields slugify [] customInputs !! index
          = Some (migrateCustomInput slugify index input)) as Hm.
  { unfold migratedFields. simpl. by rewrite list_lookup_imap, Hinput. }
  destruct (Forall2_lookup_l _ _ _ _ _ HZ Hm) as (f & Hf & _ & Hkeeps).
  exists f. split.
  { rewrite !elem_of_app. right. right. left. by eapply list_elem_of_lookup_2. }
  repeat split; by apply Hkeeps.
Qed.

Lemma X10_migrated_field_properties_witness :
  let out := reconciledFields slugify_model [] false false [numberInput; optionsInput]
               [] in
  ensureBookingInputsHaveSystemFields slugify_model eventTypeBookingFields_model
    [] false false [numberInput; optionsInput] [] = Ok out
  ∧ ∃ f, f ∈ out
     ∧ f !! "name" = Some (JStr "number-1")
     ∧ f !! "required" = Some (JBool false)
     ∧ f !! "placeholder" = Some (JStr "")
     ∧ f !! "label" = Some (JStr "Number").
Proof.
  intros out.
  assert (ensureBookingInputsHaveSystemFields slugify_model
            eventTypeBookingFields_model [] false false [numberInput; optionsInput]
            [] = Ok out) as Hout.
  { apply ensure_Ok. split; [reflexivity | vm_compute; reflexivity]. }
  split; [exact Hout|].
  exact (proj1 (X10_migrated_field_properties slugify_model
                  eventTypeBookingFields_model false false
                  [numberInput; optionsInput] [] out 0%nat numberInput Hout
                  eq_refl)).
Defined.

Lemma countName_migrated slugify customInputs s :
  countName s (imap (migrateCustomInput slugify) customInputs) = 0%nat
  ↔ s ∉ migratedNames slugify customInputs.
Proof.
  rewrite countName_0, find_index_None. split.
  - intros Hnone Hin. unfold migratedNames in Hin.
    apply list_elem_of_lookup in Hin as [i Hi]. rewrite list_lookup_imap in Hi.
    destruct (customInputs !! i) as [c|] eqn:Hc; [|done]. injection Hi as <-.
    assert (hasName (slugify (migratedNameSource i c))
              (migrateCustomInput slugify i c) = true) as Ht
      by apply hasName_fieldName, fieldName_migrateCustomInput.
    rewrite Hnone in Ht; [discriminate|].
    apply list_elem_of_lookup. exists i. by rewrite list_lookup_imap, Hc.
  - intros Hnotin x Hx. apply list_elem_of_lookup in Hx as [i Hi].
    rewrite list_lookup_imap in Hi.
    destruct (customInputs !! i) as [c|] eqn:Hc; [|done]. injection Hi as <-.
    destruct (hasName s (migrateCustomInput slugify i c)) eqn:Hs; [exfalso | done].
    apply hasName_fieldName in Hs. rewrite fieldName_migrateCustomInput in Hs.
    injection Hs as <-. apply Hnotin. unfold migratedNames.
    apply list_elem_of_lookup. exists i. by rewrite list_lookup_imap, Hc.
Qed.

(** X11.  For an empty incoming list the names of the returned fields
    are: name, email, location; then the slugs of the custom inputs, in
    the order of the inputs; then those of notes, guests, rescheduleReason
    that are not the slug of a custom input. *)
Theorem X11_names_on_migration slugify accepts disableGuests additionalNotesRequired
    customInputs workflows out :
  ensureBookingInputsHaveSystemFields slugify accepts [] disableGuests
    additionalNotesRequired customInputs workflows = Ok out →
  names out
  = JStr <$> (beforeNames ++ migratedNames slugify customInputs
              ++ List.filter
                   (λ s, bool_decide (s ∉ migratedNames slugify customInputs))
                   afterNames).
Proof.
  intros Hout. apply ensure_Ok in Hout as [-> _].
  rewrite names_reconciledFields. unfold sourceFields, absentAfterFields.
  rewrite !names_app, !fmap_app.
  rewrite (names_absentFields _ _ _ systemBeforeFields_named).
  rewrite (names_absentFields _ _ _ (systemAfterFields_named _ _)).
  unfold migratedFields. simpl bool_decide. cbn iota.
  rewrite names_migrated. change (names []) with (@nil JsVal). rewrite app_nil_l.
  f_equal. f_equal. f_equal.
  apply List.filter_ext_in. intros s Hs. apply bool_decide_ext.
  rewrite (countName_names s _ _ (names_beforeAfterFields slugify _ _)).
  rewrite !countName_app, countName_nil.
  rewrite (countName_absentFields _ _ _ (proj1 wellNamed_systemBeforeFields)).
  unfold migratedFields. simpl bool_decide. cbn iota.
  rewrite <- countName_migrated.
  assert (countName s systemBeforeFields = 0%nat) as ->; [|simpl; lia].
  apply list_elem_of_In in Hs. unfold afterNames in Hs.
  rewrite !elem_of_cons, elem_of_nil in Hs.
  destruct Hs as [->|[->|[->|[]]]]; reflexivity.
Qed.

Lemma X11_names_on_migration_witness :
  let out := reconciledFields slugify_model [] false false
               [companyInput;
                {| input_label := "Notes"; input_type := TEXTLONG;
                   input_required := false; input_placeholder := "";
                   input_options := None |}] [] in
  ensureBookingInputsHaveSystemFields slugify_model eventTypeBookingFields_model
    [] false false
    [companyInput;
     {| input_label := "Notes"; input_type := TEXTLONG; input_required := false;
        input_placeholder := ""; input_options := None |}] [] = Ok out
  ∧ names out = [JStr "name"; JStr "email"; JStr "location"; JStr "company";
                 JStr "notes"; JStr "guests"; JStr "rescheduleReason"].
Proof.
  intros out.
  assert (ensureBookingInputsHaveSystemFields slugify_model
            eventTypeBookingFields_model [] false false
            [companyInput;
             {| input_label := "Notes"; input_type := TEXTLONG;
                input_required := false; input_placeholder := "";
                input_options := None |}] [] = Ok out) as Hout.
  { apply ensure_Ok. split; [reflexivity | vm_compute; reflexivity]. }
  split; [exact Hout|].
  rewrite (X11_names_on_migration slugify_model eventTypeBookingFields_model
             false false _ [] out Hout).
  vm_compute; reflexivity.
Defined.

(** ** The entry point *)

(** X12.  A raw argument that is falsy, not only [null] or [undefined]
    but also [false], [0] or the empty string, is replaced by the empty
    list (the empty object for the metadata) before it is parsed: the call
    is the call on the empty collections. *)
Theorem X12_falsy_arguments slugify accepts parseMetaData parseCustomInputs
    bookingFields disableGuests customInputs metadata workflows :
  truthy bookingFields = false → truthy customInputs = false →
  truthy metadata = false →
  getBookingFieldsWithSystemFields slugify accepts parseMetaData parseCustomInputs
    bookingFields disableGuests customInputs metadata workflows
  = getBookingFieldsWithSystemFields slugify accepts parseMetaData parseCustomInputs
      (JArr []) disableGuests (JArr []) (JObj ∅) workflows.
Proof.
  intros Hbf Hci Hmd. unfold getBookingFieldsWithSystemFields, js_or.
  by rewrite Hbf, Hci, Hmd.
Qed.

Lemma X12_falsy_arguments_witness :
  getBookingFieldsWithSystemFields slugify_model eventTypeBookingFields_model
    EventTypeMetaDataSchema_parse_model customInputSchema_array_parse_model
    (JBool false) true (JNum 0) (JStr "") None
  = getBookingFieldsWithSystemFields slugify_model eventTypeBookingFields_model
      EventTypeMetaDataSchema_parse_model customInputSchema_array_parse_model
      (JArr []) true (JArr []) (JObj ∅) None.
Proof.
  exact (X12_falsy_arguments slugify_model eventTypeBookingFields_model
           EventTypeMetaDataSchema_parse_model customInputSchema_array_parse_model
           (JBool false) true (JNum 0) (JStr "") None eq_refl eq_refl eq_refl).
Defined.

Lemma find_None_countName s l : countName s l = 0%nat → find (hasName s) l = None.
Proof. intros H%countName_0. by rewrite find_find_index, H. Qed.

(** X13.  Through the entry point, when neither the parsed field list
    nor the migrated custom inputs have a field named notes (guests), the
    returned notes field is required exactly when the parsed metadata has
    [additionalNotesRequired] true (absent metadata, [null] and a missing
    key count as false), and the returned guests field is hidden exactly
    when disableGuests is true. *)
Theorem X13_flags_through_entry_point slugify accepts parseMetaData
    parseCustomInputs bookingFields disableGuests customInputs metadata workflows
    out :
  getBookingFieldsWithSystemFields slugify accepts parseMetaData parseCustomInputs
    bookingFields disableGuests customInputs metadata workflows = Ok out →
  ∃ parsedMetaData parsedBookingFields parsedCustomInputs,
    parseMetaData (js_or metadata (JObj ∅)) = Ok parsedMetaData
    ∧ eventTypeBookingFields_parse accepts (js_or bookingFields (JArr []))
      = Ok parsedBookingFields
    ∧ parseCustomInputs (js_or customInputs (JArr [])) = Ok parsedCustomInputs
    ∧ let incoming :=
        parsedBookingFields
        ++ migratedFields slugify parsedBookingFields parsedCustomInputs in
      (countName "notes" incoming = 0%nat →
       ∃ g, find (hasName "notes") out = Some g
            ∧ g !! "required"
              = Some (JBool (match parsedMetaData with
                             | Some m => default false (additionalNotesRequired m)
                             | None => false
                             end)))
      ∧ (countName "guests" incoming = 0%nat →
         ∃ g, find (hasName "guests") out = Some g
              ∧ g !! "hidden" = Some (JBool disableGuests)).
Proof.
  intros Hout.
  apply getFields_Ok in Hout as (md & bf & ci & Hmd & Hbf & Hci & Hout).
  exists md, bf, ci. repeat (split; [done|]).
  apply ensure_Ok in Hout as [-> _]. split.
  - intros Hnone.
    destruct (first_after_field_lookup slugify bf disableGuests
                (default false (md ≫= additionalNotesRequired)) ci
                (default [] workflows) _ "notes" "required"
                (list_elem_of_here _ _) eq_refl) as (g & Hg & Hreq); [done|].
    exists g. split; [done|]. rewrite Hreq, (find_None_countName _ _ Hnone).
    simpl. rewrite spread_empty. by destruct md.
  - intros Hnone.
    destruct (first_after_field_lookup slugify bf disableGuests
                (default false (md ≫= additionalNotesRequired)) ci
                (default [] workflows) _ "guests" "hidden"
                (guestsDefault_elem _ _) eq_refl) as (g & Hg & Hhid); [done|].
    exists g. split; [done|]. rewrite Hhid, (find_None_countName _ _ Hnone).
    simpl. by rewrite spread_empty.
Qed.

Lemma X13_flags_through_entry_point_witness :
  let out := reconciledFields slugify_model sms_bookingFields true true [] [] in
  getBookingFieldsWithSystemFields slugify_model eventTypeBookingFields_model
    EventTypeMetaDataSchema_parse_model customInputSchema_array_parse_model
    (JArr (JObj <$> sms_bookingFields)) true JNull
    (JObj (obj [("additionalNotesRequired", JBool true)])) None = Ok out
  ∧ find (hasName "notes") out ≫= (.!! "required") = Some (JBool true)
  ∧ find (hasName "guests") out ≫= (.!! "hidden") = Some (JBool true).
Proof.
  intros out.
  assert (getBookingFieldsWithSystemFields slugify_model
            eventTypeBookingFields_model EventTypeMetaDataSchema_parse_model
            customInputSchema_array_parse_model (JArr (JObj <$> sms_bookingFields))
            true JNull (JObj (obj [("additionalNotesRequired", JBool true)])) None
          = Ok out) as Hout.
  { rewrite (getFields_parsed _ _ _ _ _ _ _ _ _
               (Some {| additionalNotesRequired := Some true |}) sms_bookingFields
               []); [|vm_compute; reflexivity..].
    apply ensure_Ok. split; [reflexivity | vm_compute; reflexivity]. }
  split; [exact Hout|].
  destruct (X13_flags_through_entry_point _ _ _ _ _ _ _ _ _ _ Hout)
    as (md & bf & ci & Hmd & Hbf & Hci & Hnotes & Hguests).
  assert (md = Some {| additionalNotesRequired := Some true |}) as ->.
  { assert (Ok md = Ok (Some {| additionalNotesRequired := Some true |})) as [= ->];
      [|done].
    rewrite <- Hmd. vm_compute; reflexivity. }
  assert (bf = sms_bookingFields) as ->.
  { assert (Ok bf = Ok sms_bookingFields) as [= ->]; [|done].
    rewrite <- Hbf. unfold eventTypeBookingFields_parse, parse. simpl.
    replace (eventTypeBookingFields_model sms_bookingFields) with true
      by (vm_compute; reflexivity).
    done. }
  assert (ci = []) as ->.
  { assert (Ok ci = Ok []) as [= ->]; [|done]. rewrite <- Hci. reflexivity. }
  destruct Hnotes as (g & -> & Hreq); [vm_compute; reflexivity|].
  destruct Hguests as (g' & -> & Hhid); [vm_compute; reflexivity|].
  split; [exact Hreq | exact Hhid].
Defined.

Lemma asObjects_roundtrip l : asObjects (JArr (JObj <$> l)) = Some l.
Proof.
  unfold asObjects. apply mapM_Some. induction l; constructor; auto.
Qed.

(** X14.  A returned list, stored and given back to the entry point as
    the array of its objects, is returned again as it is, whatever the
    flag, the custom inputs, the metadata and the workflows of the second
    call are, provided these custom inputs and metadata parse. *)
Theorem X14_stored_output_is_stable slugify accepts parseMetaData parseCustomInputs
    bookingFields disableGuests customInputs metadata workflows out
    disableGuests' customInputs' metadata' workflows' parsedMetaData
    parsedCustomInputs :
  getBookingFieldsWithSystemFields slugify accepts parseMetaData parseCustomInputs
    bookingFields disableGuests customInputs metadata workflows = Ok out →
  parseMetaData (js_or metadata' (JObj ∅)) = Ok parsedMetaData →
  parseCustomInputs (js_or customInputs' (JArr [])) = Ok parsedCustomInputs →
  getBookingFieldsWithSystemFields slugify accepts parseMetaData parseCustomInputs
    (JArr (JObj <$> out)) disableGuests' customInputs' metadata' workflows'
  = Ok out.
Proof.
  intros Hout Hmd' Hci'.
  apply getFields_Ok in Hout as (md & bf & ci & _ & _ & _ & Hout).
  apply ensure_Ok in Hout as [-> Hacc].
  rewrite (getFields_parsed _ _ _ _ _ _ _ _ _ parsedMetaData
             (reconciledFields slugify bf disableGuests
                (default false (md ≫= additionalNotesRequired)) ci
                (default [] workflows)) parsedCustomInputs); [|done| |done].
  - apply ensure_Ok. by rewrite reconciledFields_idempotent.
  - unfold eventTypeBookingFields_parse, js_or. simpl truthy. cbn iota.
    rewrite asObjects_roundtrip. unfold parse. by rewrite Hacc.
Qed.

Lemma X14_stored_output_is_stable_witness :
  let out := reconciledFields slugify_model sms_bookingFields false false [] [] in
  getBookingFieldsWithSystemFields slugify_model eventTypeBookingFields_model
    EventTypeMetaDataSchema_parse_model customInputSchema_array_parse_model
    (JArr (JObj <$> sms_bookingFields)) false JNull JNull None = Ok out
  ∧ getBookingFieldsWithSystemFields slugify_model eventTypeBookingFields_model
      EventTypeMetaDataSchema_parse_model customInputSchema_array_parse_model
      (JArr (JObj <$> out)) true JNull
      (JObj (obj [("additionalNotesRequired", JBool true)])) (Some sms_workflows)
    = Ok out.
Proof.
  intros out.
  assert (getBookingFieldsWithSystemFields slugify_model
            eventTypeBookingFields_model EventTypeMetaDataSchema_parse_model
            customInputSchema_array_parse_model (JArr (JObj <$> sms_bookingFields))
            false JNull JNull None = Ok out) as Hout.
  { rewrite (getFields_parsed _ _ _ _ _ _ _ _ _
               (Some {| additionalNotesRequired := None |}) sms_bookingFields []);
      [|vm_compute; reflexivity..].
    apply ensure_Ok. split; [reflexivity | vm_compute; reflexivity]. }
  split; [exact Hout|].
  apply (X14_stored_output_is_stable _ _ _ _ _ _ _ _ _ out true JNull
           (JObj (obj [("additionalNotesRequired", JBool true)]))
           (Some sms_workflows) (Some {| additionalNotesRequired := Some true |}) []
           Hout); vm_compute; reflexivity.
Defined.
